(** * download_videos.py: crawler, video link extraction and downloader

    A shallow embedding of [download_videos.py] and the properties of its
    crawl loop, its link classifier, its regex scan and its download stage.

    Python strings are modelled as [string]: texts over the code points
    below 256 (ASCII and the Latin-1 supplement), one character per code
    point.  Python sets of URLs are modelled as [gset string], the files of
    the destination folder as a finite map from paths to contents, and
    exceptions as the [Raise] case of a result type. *)

From Stdlib Require Import String Ascii ZArith Lia List.
From stdpp Require Import base option list sets gmap strings sorting relations.

#[local] Set Warnings "-clear-no-such-hyp".

(** ** Results and exceptions *)

(** The exceptions the program can meet. *)
Inductive exn : Type :=
  | ValueError
  | RequestException
  | OSError
  | KeyError
  | OverflowError.

Inductive res (A : Type) : Type :=
  | Ok (a : A)
  | Raise (e : exn).
Arguments Ok {A} a.
Arguments Raise {A} e.

#[global] Instance res_ret : MRet res := λ A a, Ok a.
#[global] Instance res_bind : MBind res := λ A B k m,
  match m with
  | Ok a => k a
  | Raise e => Raise e
  end.

(** ** Python string operations *)

Module PyStr.

Definition dquote : ascii := "034"%char.
Definition squote : ascii := "039"%char.

(** [c in s] *)
Fixpoint contains (c : ascii) (s : string) : bool :=
  match s with
  | EmptyString => false
  | String d s' => if Ascii.eqb c d then true else contains c s'
  end.

(** [s.split(c, 1)]: the text before the first [c], and the text after it
    when [c] occurs at all. *)
Fixpoint partition (c : ascii) (s : string) : string * option string :=
  match s with
  | EmptyString => (EmptyString, None)
  | String d s' =>
      if Ascii.eqb c d then (EmptyString, Some s')
      else let '(pre, post) := partition c s' in (String d pre, post)
  end.

(** [s.split(c)] *)
Fixpoint split (c : ascii) (s : string) : list string :=
  match s with
  | EmptyString => [EmptyString]
  | String d s' =>
      if Ascii.eqb c d then EmptyString :: split c s'
      else match split c s' with
           | w :: ws => String d w :: ws
           | [] => [String d EmptyString]
           end
  end.

(** [sep.join(l)] *)
Fixpoint join (sep : string) (l : list string) : string :=
  match l with
  | [] => EmptyString
  | [w] => w
  | w :: ws => w +:+ sep +:+ join sep ws
  end.

(** [s.lstrip(chars)], with the character set given as a predicate *)
Fixpoint lstrip (p : ascii → bool) (s : string) : string :=
  match s with
  | EmptyString => EmptyString
  | String d s' => if p d then lstrip p s' else s
  end.

(** [s.rstrip(chars)] *)
Fixpoint rstrip (p : ascii → bool) (s : string) : string :=
  match s with
  | EmptyString => EmptyString
  | String d s' =>
      match rstrip p s' with
      | EmptyString => if p d then EmptyString else String d EmptyString
      | r => String d r
      end
  end.

(** successive [s.replace(b, "")] for the characters selected by [p] *)
Fixpoint remove (p : ascii → bool) (s : string) : string :=
  match s with
  | EmptyString => EmptyString
  | String d s' => if p d then remove p s' else String d (remove p s')
  end.

Fixpoint all (p : ascii → bool) (s : string) : bool :=
  match s with
  | EmptyString => true
  | String d s' => p d && all p s'
  end.

Fixpoint map (f : ascii → ascii) (s : string) : string :=
  match s with
  | EmptyString => EmptyString
  | String d s' => String (f d) (map f s')
  end.

(** The longest prefix free of characters selected by [p], and the rest. *)
Fixpoint break (p : ascii → bool) (s : string) : string * string :=
  match s with
  | EmptyString => (EmptyString, EmptyString)
  | String d s' =>
      if p d then (EmptyString, s)
      else let '(pre, post) := break p s' in (String d pre, post)
  end.

(** [s[n:]] *)
Fixpoint drop (n : nat) (s : string) : string :=
  match n, s with
  | O, _ => s
  | S n', String _ s' => drop n' s'
  | S _, EmptyString => EmptyString
  end.

(** [s[:n]] *)
Fixpoint take (n : nat) (s : string) : string :=
  match n, s with
  | S n', String d s' => String d (take n' s')
  | _, _ => EmptyString
  end.

(** [s[s.rfind(c)+1:]], the text after the last [c] (all of [s] when [c]
    does not occur) *)
Fixpoint after_last (c : ascii) (s : string) : string :=
  match s with
  | EmptyString => EmptyString
  | String d s' =>
      if contains c s' then after_last c s'
      else if Ascii.eqb c d then s' else s
  end.

(** [s[:s.rfind(c)]] and [s[s.rfind(c):]] when [c] occurs in [s] *)
Fixpoint rbreak (c : ascii) (s : string) : option (string * string) :=
  match s with
  | EmptyString => None
  | String d s' =>
      match rbreak c s' with
      | Some (pre, post) => Some (String d pre, post)
      | None => if Ascii.eqb c d then Some (EmptyString, s) else None
      end
  end.

(** The text of [s] after the prefix [t], when [s] starts with [t] *)
Fixpoint strip_prefix (t s : string) : option string :=
  match t, s with
  | EmptyString, _ => Some s
  | String a t', String b s' => if Ascii.eqb a b then strip_prefix t' s' else None
  | String _ _, EmptyString => None
  end.

(** [s.startswith(t)] *)
Definition startswith (t s : string) : bool :=
  match strip_prefix t s with Some _ => true | None => false end.

Definition nonempty (s : string) : bool :=
  match s with EmptyString => false | _ => true end.

Definition code (c : ascii) : nat := nat_of_ascii c.

Definition between (lo hi : nat) (c : ascii) : bool :=
  (lo <=? code c)%nat && (code c <=? hi)%nat.

Definition is_ascii (c : ascii) : bool := (code c <? 128)%nat.
Definition is_ascii_alpha (c : ascii) : bool := between 65 90 c || between 97 122 c.

(** [str.lower] on ASCII text *)
Definition lower_char (c : ascii) : ascii :=
  if between 65 90 c then ascii_of_nat (code c + 32) else c.
Definition lower (s : string) : string := map lower_char s.

End PyStr.

(** ** ipaddress (CPython 3.11), as far as [urllib.parse] uses it

    [urlsplit] hands the text between the brackets of a network location to
    [ipaddress.ip_address] and only looks at whether the call returns, and
    with which kind of address. *)

Module IpAddress.
Import PyStr.

Definition is_digit (c : ascii) : bool := between 48 57 c.

(** [_HEX_DIGITS] *)
Definition is_hex_digit (c : ascii) : bool :=
  between 48 57 c || between 65 70 c || between 97 102 c.

(** [int(s, 10)] on a text of decimal digits *)
Fixpoint int10 (acc : N) (s : string) : N :=
  match s with
  | EmptyString => acc
  | String c s' => int10 (10 * acc + N.of_nat (code c - 48)) s'
  end.

(** [_BaseV4._parse_octet]: the number, when the text is not empty, holds
    ASCII decimal digits only, at most three, has no leading zero unless it
    is [0], and is at most 255. *)
Definition _parse_octet (octet_str : string) : option N :=
  if nonempty octet_str
     && all is_digit octet_str
     && (String.length octet_str <=? 3)%nat
     && negb (negb (String.eqb octet_str "0") && startswith "0" octet_str)
     && (int10 0 octet_str <=? 255)%N
  then Some (int10 0 octet_str)
  else None.

(** [int.from_bytes(octets, 'big')] *)
Fixpoint from_bytes (acc : N) (octets : list (option N)) : option N :=
  match octets with
  | [] => Some acc
  | Some b :: octets' => from_bytes (256 * acc + b) octets'
  | None :: _ => None
  end.

(** [IPv4Address(s)._ip], when the constructor returns. *)
Definition IPv4Address (s : string) : option N :=
  if negb (contains "/" s) && nonempty s
  then let octets := split "." s in
       if (length octets =? 4)%nat then from_bytes 0 (List.map _parse_octet octets)
       else None
  else None.

(** ['%x' % n] for [n] below 65536 *)
Definition hex_digit (n : N) : ascii :=
  match String.get (N.to_nat n) "0123456789abcdef" with
  | Some c => c
  | None => "0"%char
  end.

Fixpoint hex_digits (fuel : nat) (n : N) (acc : string) : string :=
  match fuel with
  | O => acc
  | S fuel' =>
      let acc := String (hex_digit (n mod 16)) acc in
      if (n / 16 =? 0)%N then acc else hex_digits fuel' (n / 16) acc
  end.

Definition hex (n : N) : string := hex_digits 4 n EmptyString.

(** [_BaseV6._parse_hextet] returns: hexadecimal digits only, at most four,
    and at least one (or [int(s, 16)] raises). *)
Definition _parse_hextet (hextet_str : string) : bool :=
  all is_hex_digit hextet_str
  && (String.length hextet_str <=? 4)%nat
  && nonempty hextet_str.

(** [_split_scope_id]: the address without its scope, when the scope is
    absent or well formed. *)
Definition _split_scope_id (ip_str : string) : option string :=
  match partition "%" ip_str with
  | (addr, None) => Some addr
  | (addr, Some scope_id) =>
      if negb (nonempty scope_id) || contains "%" scope_id then None else Some addr
  end.

(** The indices [i] of the empty parts, counted from [i]. *)
Fixpoint empty_parts (i : nat) (parts : list string) : list nat :=
  match parts with
  | [] => []
  | p :: parts' =>
      if nonempty p then empty_parts (S i) parts' else i :: empty_parts (S i) parts'
  end.

(** [parts[-n:]] for [n] at most the length of [parts] *)
Definition last_parts (n : nat) (parts : list string) : list string :=
  skipn (length parts - n) parts.

(** [_BaseV6._ip_int_from_string(ip_str)] returns.  An IPv4 suffix is
    replaced by its two halves, printed as hextets. *)
Definition _ip_int_from_string (ip_str : string) : bool :=
  nonempty ip_str
  && (let parts := split ":" ip_str in
      (3 <=? length parts)%nat
      && (let suffix := List.last parts EmptyString in
          match (if contains "." suffix
                 then match IPv4Address suffix with
                      | Some ipv4_int =>
                          Some (removelast parts
                                  ++ [hex (N.land (N.shiftr ipv4_int 16) 65535);
                                      hex (N.land ipv4_int 65535)])%list
                      | None => None
                      end
                 else Some parts) with
          | None => false
          | Some parts =>
              (length parts <=? 9)%nat
              && (let first_empty := negb (nonempty (List.hd EmptyString parts)) in
                  let last_empty := negb (nonempty (List.last parts EmptyString)) in
                  match empty_parts 1 (removelast (List.tl parts)) with
                  | _ :: _ :: _ => false
                  | [skip_index] =>
                      let parts_hi := if first_empty then skip_index - 1 else skip_index in
                      let parts_lo := length parts - skip_index - 1 in
                      let parts_lo := if last_empty then parts_lo - 1 else parts_lo in
                      negb (first_empty && (0 <? parts_hi)%nat)
                      && negb (last_empty && (0 <? parts_lo)%nat)
                      && negb (8 <=? parts_hi + parts_lo)%nat
                      && forallb _parse_hextet (firstn parts_hi parts)
                      && forallb _parse_hextet (last_parts parts_lo parts)
                  | [] =>
                      (length parts =? 8)%nat
                      && negb first_empty
                      && negb last_empty
                      && forallb _parse_hextet parts
                  end)
          end)).

(** [IPv6Address(s)] returns. *)
Definition IPv6Address (s : string) : bool :=
  negb (contains "/" s)
  && match _split_scope_id s with
     | Some addr_str => _ip_int_from_string addr_str
     | None => false
     end.

Inductive address : Type :=
  | IPv4
  | IPv6.

(** [ip_address(s)]: the kind of address, or [ValueError]. *)
Definition ip_address (s : string) : res address :=
  if bool_decide (is_Some (IPv4Address s)) then Ok IPv4
  else if IPv6Address s then Ok IPv6
  else Raise ValueError.

End IpAddress.

(** ** urllib.parse (CPython 3.11), as far as the program uses it

    [allow_fragments] is always left at its default [True] by the program,
    and every argument is a [str]. *)

Module UrlParse.
Import PyStr.

Definition uses_relative : list string :=
  [""; "ftp"; "http"; "gopher"; "nntp"; "imap"; "wais"; "file"; "https";
   "shttp"; "mms"; "prospero"; "rtsp"; "rtspu"; "sftp"; "svn"; "svn+ssh";
   "ws"; "wss"].

Definition uses_netloc : list string :=
  [""; "ftp"; "http"; "gopher"; "nntp"; "telnet"; "imap"; "wais"; "file";
   "mms"; "https"; "shttp"; "snews"; "prospero"; "rtsp"; "rtspu"; "rsync";
   "svn"; "svn+ssh"; "sftp"; "nfs"; "git"; "git+ssh"; "ws"; "wss"].

Definition uses_params : list string :=
  [""; "ftp"; "hdl"; "prospero"; "http"; "imap"; "https"; "shttp"; "rtsp";
   "rtspu"; "sip"; "sips"; "mms"; "sftp"; "tel"].

Definition scheme_chars : string :=
  "abcdefghijklmnopqrstuvwxyzABCDEFGHIJKLMNOPQRSTUVWXYZ0123456789+-.".

Definition mem (s : string) (l : list string) : bool :=
  existsb (String.eqb s) l.

(** [_WHATWG_C0_CONTROL_OR_SPACE]: the characters 0x00 .. 0x20 *)
Definition c0_control_or_space (c : ascii) : bool := (code c <=? 32)%nat.

(** [_UNSAFE_URL_BYTES_TO_REMOVE]: tab, carriage return, line feed *)
Definition unsafe_url_byte (c : ascii) : bool :=
  (code c =? 9)%nat || (code c =? 13)%nat || (code c =? 10)%nat.

Record SplitResult : Type := mkSplit {
  s_scheme : string;
  s_netloc : string;
  s_path : string;
  s_query : string;
  s_fragment : string
}.

Record ParseResult : Type := mkParse {
  scheme : string;
  netloc : string;
  path : string;
  params : string;
  query : string;
  fragment : string
}.

(** The scheme prefix of [urlsplit]: [url[:i]] with [i = url.find(':')]
    is a scheme when [i > 0], [url[0]] is an ASCII letter and every
    character before the colon is a scheme character. *)
Definition split_scheme (url default : string) : string * string :=
  match partition ":" url with
  | (String c0 pre, Some post) =>
      if is_ascii c0 && is_ascii_alpha c0
         && all (fun c => contains c scheme_chars) (String c0 pre)
      then (lower (String c0 pre), post)
      else (default, url)
  | _ => (default, url)
  end.

(** [_splitnetloc(url, 2)] *)
Definition _splitnetloc (url : string) : string * string :=
  break (fun c => contains c "/?#") (drop 2 url).

(** The IPvFuture pattern of [_check_bracketed_host] matches all of
    [hostname]: the letter [v], one or more hexadecimal digits, a dot, and
    one or more further characters, none of them a line feed. *)
Definition ipvfuture (hostname : string) : bool :=
  match hostname with
  | String "v" s =>
      let '(digits, rest) := break (fun c => negb (IpAddress.is_hex_digit c)) s in
      nonempty digits
      && match rest with
         | String "." t => nonempty t && all (fun c => negb (code c =? 10)%nat) t
         | _ => false
         end
  | _ => false
  end.

Definition _check_bracketed_host (hostname : string) : res unit :=
  if startswith "v" hostname then
    if ipvfuture hostname then Ok tt else Raise ValueError
  else
    ip ← IpAddress.ip_address hostname;
    match ip with
    | IpAddress.IPv4 => Raise ValueError
    | IpAddress.IPv6 => Ok tt
    end.

Definition _check_bracketed_netloc (nl : string) : res unit :=
  let hostname_and_port := after_last "@" nl in
  match partition "[" hostname_and_port with
  | (before_bracket, Some bracketed) =>
      if nonempty before_bracket then Raise ValueError
      else
        let '(hostname, port) :=
          match partition "]" bracketed with
          | (hostname, Some port) => (hostname, port)
          | (hostname, None) => (hostname, EmptyString)
          end in
        if nonempty port && negb (startswith ":" port) then Raise ValueError
        else _check_bracketed_host hostname
  | (_, None) =>
      _check_bracketed_host (fst (partition ":" hostname_and_port))
  end.

(** The bracket checks of [urlsplit]. *)
Definition check_brackets (nl : string) : res unit :=
  let o := contains "[" nl in
  let c := contains "]" nl in
  if (o && negb c) || (c && negb o) then Raise ValueError
  else if o && c then _check_bracketed_netloc nl
  else Ok tt.

(** [_checknetloc]: returns at once on an empty or pure ASCII netloc.
    Otherwise it raises when NFKC normalisation of the netloc brings in one
    of the characters [/?#@:].  No character below code point 256 has such a
    normal form (those that have, like U+2100, lie above), so on the texts
    of this model the function returns as well. *)
Definition _checknetloc (nl : string) : res unit :=
  if negb (nonempty nl) || all is_ascii nl then Ok tt else Ok tt.

(** The first lines of [urlsplit]: strip leading C0 control characters and
    spaces, then remove tabs and line breaks. *)
Definition clean_url (url : string) : string :=
  remove unsafe_url_byte (lstrip c0_control_or_space url).

Definition clean_scheme (scheme : string) : string :=
  remove unsafe_url_byte
    (lstrip c0_control_or_space (rstrip c0_control_or_space scheme)).

(** [if url[:2] == '//': netloc, url = _splitnetloc(url, 2)] with the
    bracket checks *)
Definition take_netloc (url : string) : res (string * string) :=
  if startswith "//" url
  then let '(nl, rest) := _splitnetloc url in
       _ ← check_brackets nl; Ok (nl, rest)
  else Ok (EmptyString, url).

(** [if c in url: url, part = url.split(c, 1)] *)
Definition split_off (c : ascii) (url : string) : string * string :=
  match partition c url with
  | (pre, Some post) => (pre, post)
  | (_, None) => (url, EmptyString)
  end.

Definition urlsplit (url scheme : string) : res SplitResult :=
  let '(scheme, url) := split_scheme (clean_url url) (clean_scheme scheme) in
  '(netloc, url) ← take_netloc url;
  let '(url, fragment) := split_off "#" url in
  let '(url, query) := split_off "?" url in
  _ ← _checknetloc netloc;
  Ok (mkSplit scheme netloc url query fragment).

Definition _splitparams (url : string) : string * string :=
  match rbreak "/" url with
  | Some (dir, last) =>
      (* i = url.find(';', url.rfind('/')) *)
      match partition ";" last with
      | (pre, Some post) => (dir +:+ pre, post)
      | (_, None) => (url, EmptyString)
      end
  | None =>
      match partition ";" url with
      | (pre, Some post) => (pre, post)
      | (_, None) => (take (String.length url - 1) url, url)
      end
  end.

Definition urlparse (url scheme : string) : res ParseResult :=
  sp ← urlsplit url scheme;
  let '(url, params) :=
    if mem (s_scheme sp) uses_params && contains ";" (s_path sp)
    then _splitparams (s_path sp)
    else (s_path sp, EmptyString) in
  Ok (mkParse (s_scheme sp) (s_netloc sp) url params (s_query sp) (s_fragment sp)).

Definition urlunsplit (scheme netloc url query fragment : string) : string :=
  let url :=
    if nonempty netloc
       || (nonempty scheme && mem scheme uses_netloc && negb (startswith "//" url))
    then let url := if nonempty url && negb (startswith "/" url)
                    then "/" +:+ url else url in
         "//" +:+ netloc +:+ url
    else url in
  let url := if nonempty scheme then scheme +:+ ":" +:+ url else url in
  let url := if nonempty query then url +:+ "?" +:+ query else url in
  if nonempty fragment then url +:+ "#" +:+ fragment else url.

Definition urlunparse (scheme netloc url params query fragment : string) : string :=
  let url := if nonempty params then url +:+ ";" +:+ params else url in
  urlunsplit scheme netloc url query fragment.

(** [segments[1:-1] = filter(None, segments[1:-1])] *)
Definition filter_interior (segments : list string) : list string :=
  match segments with
  | first :: (_ :: _) as rest =>
      (first :: List.filter nonempty (removelast rest) ++ [List.last rest EmptyString])%list
  | _ => segments
  end.

(** The loop of [urljoin] over the segments; [resolved_path] is kept in
    reverse. *)
Fixpoint resolve (segments rev_resolved : list string) : list string :=
  match segments with
  | [] => rev rev_resolved
  | seg :: segments' =>
      if String.eqb seg ".." then resolve segments' (tail rev_resolved)
      else if String.eqb seg "." then resolve segments' rev_resolved
      else resolve segments' (seg :: rev_resolved)
  end.

Definition urljoin (base url : string) : res string :=
  if negb (nonempty base) then Ok url
  else if negb (nonempty url) then Ok base
  else
    b ← urlparse base EmptyString;
    u ← urlparse url (scheme b);
    if negb (String.eqb (scheme u) (scheme b)) || negb (mem (scheme u) uses_relative)
    then Ok url
    else if mem (scheme u) uses_netloc && nonempty (netloc u)
    then Ok (urlunparse (scheme u) (netloc u) (path u) (params u) (query u) (fragment u))
    else
      let nl := if mem (scheme u) uses_netloc then netloc b else netloc u in
      if negb (nonempty (path u)) && negb (nonempty (params u))
      then
        let q := if negb (nonempty (query u)) then query b else query u in
        Ok (urlunparse (scheme u) nl (path b) (params b) q (fragment u))
      else
        let base_parts := split "/" (path b) in
        let base_parts :=
          if nonempty (List.last base_parts EmptyString)
          then removelast base_parts else base_parts in
        let segments :=
          if startswith "/" (path u) then split "/" (path u)
          else filter_interior (base_parts ++ split "/" (path u))%list in
        let resolved_path := resolve segments [] in
        let resolved_path :=
          if mem (List.last segments EmptyString) ["."; ".."]
          then (resolved_path ++ [EmptyString])%list else resolved_path in
        let joined := join "/" resolved_path in
        Ok (urlunparse (scheme u) nl
              (if nonempty joined then joined else "/")
              (params u) (query u) (fragment u)).

End UrlParse.

(** ** The [re] patterns of the program

    A backtracking matcher for the fragment of Python's [re] syntax that the
    two patterns of [find_video_urls] use: literals, a character set, a
    repeated character set ([+] greedy, [+?] lazy), alternation,
    concatenation and one capturing group.  Alternatives are tried in the
    order Python's matcher tries them, and the first success wins. *)

Module Re.
Import PyStr.

Inductive regex : Type :=
  | Lit (t : string)
  | CharSet (negated : bool) (cs : string)
  | Plus (greedy : bool) (negated : bool) (cs : string)
  | Alt (r1 r2 : regex)
  | Cat (r1 r2 : regex)
  | Group (r : regex).

Definition in_set (negated : bool) (cs : string) (c : ascii) : bool :=
  xorb negated (contains c cs).

(** One or more characters selected by [p], then the continuation [k].
    Greedy: a longer run is tried before a shorter one.  Lazy: the other
    way round. *)
Fixpoint plus {A : Type} (greedy : bool) (p : ascii → bool) (s : string)
    (k : string → option A) : option A :=
  match s with
  | EmptyString => None
  | String c s' =>
      if p c then
        if greedy
        then match plus greedy p s' k with Some a => Some a | None => k s' end
        else match k s' with Some a => Some a | None => plus greedy p s' k end
      else None
  end.

(** [run r cap s k]: match [r] at the head of [s], then go on with [k] on
    the text of group 1 and the remaining input. *)
Fixpoint run {A : Type} (r : regex) (cap : string) (s : string)
    (k : string → string → option A) : option A :=
  match r with
  | Lit t =>
      match strip_prefix t s with Some s' => k cap s' | None => None end
  | CharSet negated cs =>
      match s with
      | String c s' => if in_set negated cs c then k cap s' else None
      | EmptyString => None
      end
  | Plus greedy negated cs => plus greedy (in_set negated cs) s (k cap)
  | Alt r1 r2 =>
      match run r1 cap s k with Some a => Some a | None => run r2 cap s k end
  | Cat r1 r2 => run r1 cap s (fun cap' s' => run r2 cap' s' k)
  | Group r1 =>
      run r1 cap s
        (fun _ s' => k (take (String.length s - String.length s') s) s')
  end.

(** [pattern.match] at the head of [s]: group 1 and the unconsumed text. *)
Definition match_at (r : regex) (s : string) : option (string * string) :=
  run r EmptyString s (fun cap s' => Some (cap, s')).

(** [re.findall(r, s)] for a pattern with one group: scan from the left,
    take the match at the first position that has one, go on after it.
    [skip] counts the characters of the last match still to be passed. *)
Fixpoint findall_from (r : regex) (skip : nat) (s : string) : list string :=
  match s with
  | EmptyString =>
      match skip, match_at r EmptyString with
      | O, Some (cap, _) => [cap]
      | _, _ => []
      end
  | String _ s' =>
      match skip with
      | S n => findall_from r n s'
      | O =>
          match match_at r s with
          | Some (cap, rest) =>
              cap :: findall_from r (String.length s - String.length rest - 1) s'
          | None => findall_from r 0 s'
          end
      end
  end.

Definition findall (r : regex) (s : string) : list string := findall_from r 0 s.

End Re.

(** ** The program *)

(** The CONFIG block of the script. *)
Record config : Type := mkConfig {
  BASE_URL : string;
  VIDEO_DIR : string;
  MAX_PAGES : Z
}.

Definition CONFIG : config :=
  mkConfig "https://enterawebsite.com/" "videos" 1000.

(** Roots of the shape of the configured one: [https://], a host made of
    ASCII letters, digits, dots and hyphens, and a slash. *)
Definition host_char (c : ascii) : bool :=
  PyStr.is_ascii_alpha c || PyStr.between 48 57 c || Ascii.eqb c "." || Ascii.eqb c "-".

Definition plain_host (host : string) : bool :=
  PyStr.nonempty host && PyStr.all host_char host.

Definition site_root (host : string) : string := "https://" +:+ host +:+ "/".

(** The final answer to [requests.get(url, timeout=10)]: none, when the
    call raises (connection error, timeout, too many redirects), or a
    response with its status code and its text. *)
Inductive http_answer : Type :=
  | NoAnswer
  | Answer (status_code : Z) (text : string).

(** [Response.raise_for_status]: raises [HTTPError], a
    [RequestException], for the status codes 400 to 599 and returns for
    every other one. *)
Definition raise_for_status (status_code : Z) : res unit :=
  if ((400 <=? status_code) && (status_code <? 600))%Z
  then Raise RequestException
  else Ok tt.

(** What [requests.get(url, stream=True)] and the rest of [download_file]
    meet:
    - [Failed]: [requests.get] or [raise_for_status] raises;
    - [BadLength]: the [content-length] header is not a number for [int],
      which raises before the output file is opened;
    - [Body chunks complete]: the body is delivered in chunks by
      [iter_content], and ends normally or breaks off with an exception
      after the chunks received so far;
    - [HugeLength chunks]: the body is delivered to its end, and the
      [content-length] header is a number so large that the division
      [total / 1024**2] raises once the file is written and closed. *)
Inductive response : Type :=
  | Failed
  | BadLength
  | Body (chunks : list string) (complete : bool)
  | HugeLength (chunks : list string).

(** The services the script calls: the HTML parser, the network, and the
    choice made by [set.pop].

    - [soup_anchor_hrefs html]: [a["href"]] for every [a] of
      [BeautifulSoup(html, "html.parser").find_all("a", href=True)];
    - [soup_video_sources html]: [src.get("src")] for every [source] found
      under every [video] element, [None] when the attribute is missing;
    - [http_get url]: see [http_answer];
    - [requests_get_stream url]: see [response];
    - [pop_choice i]: which element the [i]-th call of [to_crawl.pop()]
      takes, as an index into the elements of the set. *)
Record world : Type := mkWorld {
  soup_anchor_hrefs : string → list string;
  soup_video_sources : string → list (option string);
  http_get : string → http_answer;
  requests_get_stream : string → response;
  pop_choice : nat → nat
}.

(** The [try] block of [main]: the text of the page when
    [requests.get(url, timeout=10)] and [resp.raise_for_status()] both
    return, [None] when either raises. *)
Definition requests_get (w : world) (url : string) : option string :=
  match http_get w url with
  | NoAnswer => None
  | Answer status_code text =>
      match raise_for_status status_code with
      | Ok _ => Some text
      | Raise _ => None
      end
  end.

Module Patterns.
Import PyStr Re.

Definition quotes : string := String dquote (String squote EmptyString).

(** The group of the two patterns: the literal [/video/], one or more
    characters other than the two quote characters, a dot, and [mp4] or
    [webm]; with the given repetition mode. *)
Definition video_path (greedy : bool) : regex :=
  Cat (Lit "/video/")
    (Cat (Plus greedy true quotes)
       (Cat (Lit ".") (Alt (Lit "mp4") (Lit "webm")))).

(** The pattern of [find_video_urls] for the attribute [attr] ([src] or
    [href]): the attribute name, the equals sign, one quote character of
    either kind, and the group.  The source writes the repetition as the
    greedy [+]. *)
Definition video_attr (attr : string) : regex :=
  Cat (Lit (attr +:+ "="))
    (Cat (CharSet false quotes) (Group (video_path true))).

(** The same pattern with the lazy repetition [+?], which is what a
    non-greedy path capture would be. *)
Definition video_attr_lazy (attr : string) : regex :=
  Cat (Lit (attr +:+ "="))
    (Cat (CharSet false quotes) (Group (video_path false))).

Definition is_quote (c : ascii) : bool := contains c quotes.

(** A name [stem.mp4] or [stem.webm] with a stem that is not empty. *)
Definition video_name (p : string) : Prop :=
  ∃ stem ext, stem ≠ EmptyString
              ∧ (ext = "mp4" ∨ ext = "webm")
              ∧ p = stem +:+ "." +:+ ext.

(** The text ends, or goes on with a quote character. *)
Definition quote_or_end (rest : string) : Prop :=
  match rest with
  | EmptyString => True
  | String c _ => is_quote c = true
  end.

(** An attribute in the page text: the name, the equals sign, the opening
    quote [q], a value that starts with [/video/] and goes on with
    [body], and whatever follows. *)
Definition tag_text (attr : string) (q : ascii) (body rest : string) : string :=
  attr +:+ "=" +:+ String q ("/video/" +:+ body +:+ rest).

(** What the matcher does at the end of the group that started at the
    text [s0]: group 1 is the part of [s0] consumed. *)
Definition group_end (s0 : string) : string → string → option (string * string) :=
  λ _ s', Some (take (String.length s0 - String.length s') s0, s').

(** What it does after the repetition. *)
Definition after_run (s0 : string) : string → option (string * string) :=
  λ s1, run (Cat (Lit ".") (Alt (Lit "mp4") (Lit "webm"))) EmptyString s1
          (group_end s0).

(** The same for the value [/video/] followed by [body], with [rest] after
    it. *)
Definition after_value (body rest : string) : string → option (string * string) :=
  after_run ("/video/" +:+ body +:+ rest).

(** Every capture ends with [4] or [m]; [not_end] selects the other
    characters. *)
Definition not_end (c : ascii) : bool :=
  negb (Ascii.eqb c "4" || Ascii.eqb c "m").

(** The tag [src=Q/video/a.mp4x.mp4Q], with [Q] the double quote. *)
Definition mp4x_tag : string :=
  "src=" +:+ String dquote ("/video/a.mp4x.mp4" +:+ String dquote EmptyString).

End Patterns.

Section Program.
Import PyStr UrlParse.
Variable cfg : config.
Variable w : world.

Definition is_internal_link (href : option string) : res bool :=
  match href with
  | None => Ok false
  | Some href =>
      if negb (nonempty href) then Ok false
      else
        joined ← urljoin (BASE_URL cfg) href;
        parsed ← urlparse joined EmptyString;
        root ← urlparse (BASE_URL cfg) EmptyString;
        Ok (String.eqb (netloc parsed) (netloc root))
  end.

(** The body of the [for a in ...] loop of [gather_page_urls]. *)
Definition gather_anchor (base : string) (urls : gset string) (a_href : string)
    : res (gset string) :=
  let href := fst (partition "#" a_href) in
  internal ← is_internal_link (Some href);
  if internal : bool then
    abs_url ← urljoin base href;
    Ok (urls ∪ {[abs_url]})
  else Ok urls.

Fixpoint for_each {A B : Type} (body : B → A → res B) (acc : B) (l : list A) : res B :=
  match l with
  | [] => Ok acc
  | x :: l' => acc' ← body acc x; for_each body acc' l'
  end.

Definition gather_page_urls (html base : string) : res (gset string) :=
  for_each (gather_anchor base) ∅ (soup_anchor_hrefs w html).

Definition add_joined (base : string) (urls : gset string) (raw : string)
    : res (gset string) :=
  abs_url ← urljoin base raw;
  Ok (urls ∪ {[abs_url]}).

Definition add_source (base : string) (urls : gset string) (raw : option string)
    : res (gset string) :=
  match raw with
  | Some raw => if nonempty raw then add_joined base urls raw else Ok urls
  | None => Ok urls
  end.

(** The matches of the two [re.findall] scans, in the order the loops of
    [find_video_urls] meet them. *)
Definition pattern_pass (html : string) : list string :=
  (Re.findall (Patterns.video_attr "src") html
     ++ Re.findall (Patterns.video_attr "href") html)%list.

Definition find_video_urls (html base : string) : res (gset string) :=
  urls ← for_each (add_source base) ∅ (soup_video_sources w html);
  for_each (add_joined base) urls (pattern_pass html).

End Program.

(** ** The download stage *)

(** The destination filesystem: the regular files, by path, with their
    contents.  Directories are not tracked: [os.makedirs(dest_folder,
    exist_ok=True)] succeeds unless a regular file stands at that path or
    at one of the paths leading to it, and afterwards [dest_folder] is a
    directory, which is taken to hold regular files only.  Permission and
    space errors are left out. *)
Record dstate : Type := mkDState {
  fs : gmap string string;
  transfers : list string;
  processed : list string
}.

Section Download.
Import PyStr UrlParse.
Variable w : world.

(** The paths on the way to [pre] followed by [s]: the text before each
    slash of [s], and the whole. *)
Fixpoint ancestors (pre s : string) : list string :=
  match s with
  | EmptyString => [pre]
  | String c s' =>
      if Ascii.eqb c "/" then pre :: ancestors (pre +:+ "/") s'
      else ancestors (pre +:+ String c EmptyString) s'
  end.

Definition makedirs (dest_folder : string) (files : gmap string string) : res unit :=
  if negb (nonempty dest_folder) then Raise OSError
  else if existsb (fun p => bool_decide (is_Some (files !! p)))
            (ancestors EmptyString dest_folder)
  then Raise OSError
  else Ok tt.

(** [os.path.basename] *)
Definition basename (p : string) : string := after_last "/" p.

(** [os.path.join(dest_folder, filename)] for a [filename] without slash *)
Definition path_join (dest_folder filename : string) : string :=
  if negb (nonempty dest_folder) || String.eqb (after_last "/" dest_folder) EmptyString
  then dest_folder +:+ filename
  else dest_folder +:+ "/" +:+ filename.

(** [os.path.exists(os.path.join(dest_folder, filename))] once
    [dest_folder] is a directory: an empty [filename], [.] and [..] name
    the directory itself or its parent. *)
Definition path_exists (files : gmap string string) (dest_folder filename : string) : bool :=
  if mem filename [""; "."; ".."] then true
  else bool_decide (is_Some (files !! path_join dest_folder filename)).

(** [transfers] logs the GET requests the function issues, [processed]
    the URLs it is called with. *)
Definition download_file (url dest_folder : string) (d : dstate) : dstate * res unit :=
  let d := mkDState (fs d) (transfers d) (processed d ++ [url]) in
  match makedirs dest_folder (fs d) with
  | Raise e => (d, Raise e)
  | Ok _ =>
      match urlparse url EmptyString with
      | Raise e => (d, Raise e)
      | Ok parsed =>
          let filename := basename (path parsed) in
          let out_path := path_join dest_folder filename in
          if path_exists (fs d) dest_folder filename then (d, Ok tt)
          else
            let d := mkDState (fs d) (transfers d ++ [url]) (processed d) in
            match requests_get_stream w url with
            | Failed => (d, Raise RequestException)
            | BadLength => (d, Raise ValueError)
            | Body chunks complete =>
                let content := join EmptyString (List.filter nonempty chunks) in
                (mkDState (<[out_path := content]> (fs d)) (transfers d) (processed d),
                 if complete then Ok tt else Raise RequestException)
            | HugeLength chunks =>
                let content := join EmptyString (List.filter nonempty chunks) in
                (mkDState (<[out_path := content]> (fs d)) (transfers d) (processed d),
                 Raise OverflowError)
            end
      end
  end.

(** [for vid_url in urls: download_file(vid_url, dest_folder)] *)
Fixpoint download_each (urls : list string) (dest_folder : string) (d : dstate)
    : dstate * res unit :=
  match urls with
  | [] => (d, Ok tt)
  | vid_url :: urls' =>
      match download_file vid_url dest_folder d with
      | (d', Ok _) => download_each urls' dest_folder d'
      | (d', Raise e) => (d', Raise e)
      end
  end.

(** The file of [url] is taken to exist in [dest_folder]: the check of
    [download_file] is reached and answers yes. *)
Definition already_there (files : gmap string string) (dest_folder url : string) : Prop :=
  makedirs dest_folder files = Ok tt
  ∧ ∃ parsed, urlparse url EmptyString = Ok parsed
              ∧ path_exists files dest_folder (basename (path parsed)) = true.

(** [sorted(found_videos)] *)
Definition sorted (found_videos : gset string) : list string :=
  merge_sort String.le (elements found_videos).

(** The download loop of [main]. *)
Definition download_all (found_videos : gset string) (dest_folder : string) (d : dstate)
    : dstate * res unit :=
  download_each (sorted found_videos) dest_folder d.

End Download.

(** ** The crawl loop of [main] *)

(** [fetched] logs the page URLs for which [requests.get] is called, in
    order. *)
Record crawl_state : Type := mkCrawl {
  visited_pages : gset string;
  to_crawl : gset string;
  found_videos : gset string;
  fetched : list string
}.

(** How one pass through the loop body ends: at the end of the body or at a
    [continue], or with an exception that nothing catches, in the state
    reached by then. *)
Inductive outcome : Type :=
  | Continue (st : crawl_state)
  | Uncaught (e : exn) (st : crawl_state).

Section Crawl.
Variable cfg : config.
Variable w : world.

Definition initial : crawl_state := mkCrawl ∅ {[BASE_URL cfg]} ∅ [].

(** [to_crawl and len(visited_pages) < MAX_PAGES] *)
Definition loop_cond (st : crawl_state) : bool :=
  negb (bool_decide (to_crawl st = ∅))
  && (Z.of_nat (size (visited_pages st)) <? MAX_PAGES cfg)%Z.

(** The loop body, for the [url] that [to_crawl.pop()] returned. *)
Definition iteration (url : string) (st : crawl_state) : outcome :=
  let st := mkCrawl (visited_pages st) (to_crawl st ∖ {[url]}) (found_videos st) (fetched st) in
  if bool_decide (url ∈ visited_pages st) then Continue st
  else
    let st := mkCrawl (visited_pages st) (to_crawl st) (found_videos st) (fetched st ++ [url]) in
    match requests_get w url with
    | None =>
        Continue (mkCrawl (visited_pages st ∪ {[url]}) (to_crawl st) (found_videos st) (fetched st))
    | Some html =>
        let st := mkCrawl (visited_pages st ∪ {[url]}) (to_crawl st) (found_videos st) (fetched st) in
        match find_video_urls w html url with
        | Raise e => Uncaught e st
        | Ok vids =>
            let st := mkCrawl (visited_pages st) (to_crawl st) (found_videos st ∪ vids) (fetched st) in
            match gather_page_urls cfg w html url with
            | Raise e => Uncaught e st
            | Ok pages =>
                let new_pages := pages ∖ visited_pages st in
                Continue (mkCrawl (visited_pages st) (to_crawl st ∪ new_pages) (found_videos st) (fetched st))
            end
        end
    end.

(** One pass of the [while] loop, for any element [set.pop] may return. *)
Inductive step : crawl_state → outcome → Prop :=
  | step_pop (st : crawl_state) (url : string) :
      loop_cond st = true → url ∈ to_crawl st → step st (iteration url st).

(** The states at the head of the loop in some run. *)
Inductive reachable : crawl_state → Prop :=
  | reachable_initial : reachable initial
  | reachable_step (st st' : crawl_state) :
      reachable st → step st (Continue st') → reachable st'.

(** [to_crawl.pop()] as the [i]-th choice of the world makes it. *)
Definition pop (i : nat) (s : gset string) : option string :=
  elements s !! (pop_choice w i mod size s).

(** The [while] loop, run for at most [fuel] tests of its condition;
    [i] counts the passes made so far.  [Some (Continue st)]: the
    condition failed in [st]. *)
Fixpoint crawl_loop (fuel : nat) (i : nat) (st : crawl_state) : option outcome :=
  match fuel with
  | O => None
  | S fuel' =>
      if loop_cond st then
        match pop i (to_crawl st) with
        | None => Some (Uncaught KeyError st)
        | Some url =>
            match iteration url st with
            | Continue st' => crawl_loop fuel' (S i) st'
            | Uncaught e st' => Some (Uncaught e st')
            end
        end
      else Some (Continue st)
  end.

Definition outcome_state (o : outcome) : crawl_state :=
  match o with
  | Continue st => st
  | Uncaught _ st => st
  end.

(** One full pass of the loop leads from [st] to [st']. *)
Definition next (st st' : crawl_state) : Prop := step st (Continue st').

(** What holds at the head of the loop: the frontier and the visited set
    are disjoint, and the visited set is the set of the URLs fetched so
    far, each of them fetched once. *)
Definition crawl_inv (st : crawl_state) : Prop :=
  to_crawl st ## visited_pages st
  ∧ NoDup (fetched st)
  ∧ list_to_set (fetched st) = visited_pages st.

(** What [main] leaves behind: the crawl state, the download state and
    whether it returned or raised. *)
Definition main (fuel : nat) (d : dstate) : option (crawl_state * dstate * res unit) :=
  match crawl_loop fuel 0 initial with
  | None => None
  | Some (Uncaught e st) => Some (st, d, Raise e)
  | Some (Continue st) =>
      if bool_decide (found_videos st = ∅) then Some (st, d, Ok tt)
      else
        let '(d', r) := download_all w (found_videos st) (VIDEO_DIR cfg) d in
        Some (st, d', r)
  end.

End Crawl.

(** ** A small site, for running the definitions

    Three pages: the root links to [/a], to [/b] (with a fragment), to
    another host and to a fragment of itself, and embeds two videos;
    [/a] links back to the root and embeds a third video; [/b] answers
    with an error status.  Of the three videos, the second in sorted
    order cannot be fetched. *)
Module Site.

Definition root_html : string :=
  "<a href='/a'>A</a> <a href='/b#top'>B</a> <a href='https://other.test/x'>X</a> "
  +:+ "<a href='#frag'>here</a> <video><source src='/video/intro.mp4'></video> "
  +:+ "<a href='/video/clip.webm'>clip</a>".

Definition a_html : string :=
  "<a href='/'>home</a> <video src='/video/zoo.mp4'></video>".

Definition anchors (html : string) : list string :=
  if String.eqb html root_html
  then ["/a"; "/b#top"; "https://other.test/x"; "#frag"; "/video/clip.webm"]
  else if String.eqb html a_html then ["/"]
  else [].

Definition sources (html : string) : list (option string) :=
  if String.eqb html root_html then [Some "/video/intro.mp4"] else [].

Definition get (url : string) : http_answer :=
  if String.eqb url "https://enterawebsite.com/" then Answer 200 root_html
  else if String.eqb url "https://enterawebsite.com/a" then Answer 200 a_html
  else Answer 404 "Not Found".

Definition get_stream (url : string) : response :=
  if String.eqb url "https://enterawebsite.com/video/clip.webm"
  then Body ["RIFF"; ""; "data"] true
  else if String.eqb url "https://enterawebsite.com/video/zoo.mp4"
  then Body ["zoo"] true
  else Failed.

Definition world_ : world := mkWorld anchors sources get get_stream (fun _ => 0).

(** The same site when every video can be fetched. *)
Definition get_stream_ok (url : string) : response :=
  if String.eqb url "https://enterawebsite.com/video/intro.mp4"
  then Body ["intro"] true
  else get_stream url.

Definition world_ok : world := mkWorld anchors sources get get_stream_ok (fun _ => 0).

(** The same site when no page can be fetched. *)
Definition world_down : world :=
  mkWorld anchors sources (fun _ => NoAnswer) get_stream (fun _ => 0).

Definition empty_disk : dstate := mkDState ∅ [] [].

(** The state after the first pass, which fetches the root. *)
Definition after_root : crawl_state :=
  outcome_state (iteration CONFIG world_ (BASE_URL CONFIG) (initial CONFIG)).

(** The three videos of the site. *)
Definition videos : gset string :=
  {[ "https://enterawebsite.com/video/clip.webm";
     "https://enterawebsite.com/video/intro.mp4";
     "https://enterawebsite.com/video/zoo.mp4" ]}.

(** The disk after a run that fetched all three. *)
Definition full_disk : dstate := (download_all world_ok videos "videos" empty_disk).1.

End Site.

(** ** More small sites *)
Module Cases.

(** A site whose root page carries an anchor that [urljoin] rejects. *)
Definition bad_html : string := "<a href='http://[::1'>x</a>".

Definition world_bad : world :=
  mkWorld (λ html, if String.eqb html bad_html then ["http://[::1"] else [])
    (λ _, []) (λ _, Answer 200 bad_html) (λ _, Failed) (λ _, 0).

(** A site whose only page has neither anchors nor videos. *)
Definition world_blank : world :=
  mkWorld (λ _, []) (λ _, []) (λ _, Answer 200 "<p>nothing</p>") (λ _, Failed) (λ _, 0).

(** A network on which the body of every video breaks off after two
    chunks. *)
Definition world_broken : world :=
  mkWorld (λ _, []) (λ _, []) (λ _, NoAnswer) (λ _, Body ["RI"; "FF"] false) (λ _, 0).

(** A site whose root answers with status 300 and a page that lists a
    video. *)
Definition choices_html : string := "<video><source src='/video/intro.mp4'></video>".

Definition world_choices : world :=
  mkWorld (λ _, [])
    (λ html, if String.eqb html choices_html then [Some "/video/intro.mp4"] else [])
    (λ _, Answer 300 choices_html) (λ _, Body ["intro"] true) (λ _, 0).

(** A site whose root answers with status 300 and the page of
    [world_bad]. *)
Definition world_choices_bad : world :=
  mkWorld (soup_anchor_hrefs world_bad) (λ _, [])
    (λ _, Answer 300 bad_html) (λ _, Failed) (λ _, 0).

(** A site whose only page names a video by a path that ends in a
    slash. *)
Definition slash_html : string := "<video><source src='/video/'></video>".

Definition world_slash : world :=
  mkWorld (λ _, [])
    (λ html, if String.eqb html slash_html then [Some "/video/"] else [])
    (λ _, Answer 200 slash_html) (λ _, Body ["data"] true) (λ _, 0).

(** The state in which the crawl of the small site ends. *)
Definition crawl_end : crawl_state :=
  match crawl_loop CONFIG Site.world_ok 10 0 (initial CONFIG) with
  | Some o => outcome_state o
  | None => initial CONFIG
  end.

End Cases.

(** * Strings and patterns *)

Section StringFacts.
Import PyStr.

Lemma str_app_cons (c : ascii) (s t : string) : String c s +:+ t = String c (s +:+ t).
Proof. reflexivity. Qed.

Lemma str_app_nil_l (s : string) : "" +:+ s = s.
Proof. reflexivity. Qed.

Lemma str_app_nil_r (s : string) : s +:+ "" = s.
Proof. induction s as [|c s IH]; [done|]. by rewrite str_app_cons, IH. Qed.

Lemma str_app_assoc (s1 s2 s3 : string) : (s1 +:+ s2) +:+ s3 = s1 +:+ (s2 +:+ s3).
Proof. induction s1 as [|c s1 IH]; [done|]. by rewrite !str_app_cons, IH. Qed.

Lemma str_length_app (s1 s2 : string) :
  String.length (s1 +:+ s2) = String.length s1 + String.length s2.
Proof. induction s1 as [|c s1 IH]; [done|]. rewrite str_app_cons. simpl. by rewrite IH. Qed.

(** Two splits of one text at the same position are the same split. *)
Lemma str_app_inj_length (x x' t t' : string) :
  x +:+ t = x' +:+ t' → String.length x = String.length x' → x = x' ∧ t = t'.
Proof.
  revert x'. induction x as [|a x IH]; intros [|a' x'] Hs Hl; try done.
  rewrite !str_app_cons in Hs. injection Hs as -> Hs. injection Hl as Hl.
  by destruct (IH x' Hs Hl) as [-> ->].
Qed.

(** [take] undoes an append when given the length difference. *)
Lemma str_take_app (a b : string) :
  take (String.length (a +:+ b) - String.length b) (a +:+ b) = a.
Proof.
  rewrite str_length_app. replace (_ + _ - _) with (String.length a) by lia.
  induction a as [|c a IH]; [by destruct b|]. rewrite str_app_cons. simpl. by rewrite IH.
Qed.

Lemma str_drop_app (a b : string) : drop (String.length a) (a +:+ b) = b.
Proof. induction a as [|c a IH]; [done|]. exact IH. Qed.

Lemma strip_prefix_spec (t s s' : string) :
  strip_prefix t s = Some s' ↔ s = t +:+ s'.
Proof.
  revert s. induction t as [|a t IH]; intros s; simpl.
  - split; [by intros [= ->]|by intros ->].
  - destruct s as [|b s]; [done|]. rewrite str_app_cons.
    destruct (Ascii.eqb_spec a b) as [->|Hne].
    + rewrite IH. split; [by intros ->|by intros [= ->]].
    + split; [done|]. intros [= ??]. done.
Qed.

Lemma strip_prefix_app (t s : string) : strip_prefix t (t +:+ s) = Some s.
Proof. by apply strip_prefix_spec. Qed.

Lemma str_all_app (p : ascii → bool) (s t : string) :
  all p (s +:+ t) = all p s && all p t.
Proof.
  induction s as [|c s IH]; [done|]. rewrite str_app_cons. simpl.
  by rewrite IH, andb_assoc.
Qed.

End StringFacts.

Section RegexFacts.
Import PyStr Re Patterns.

(** When the greedy repetition fails, the continuation fails after every
    run. *)
Lemma plus_greedy_none {A} (p : ascii → bool) (k : string → option A) body :
  ∀ rest,
    all p body = true →
    plus true p (body +:+ rest) k = None →
    ∀ x t, body = x +:+ t → x ≠ EmptyString → k (t +:+ rest) = None.
Proof.
  induction body as [|c body IH]; intros rest Hall Hplus x t Hsplit Hne.
  - by destruct x.
  - destruct x as [|c' x]; [done|]. rewrite str_app_cons in Hsplit.
    injection Hsplit as <- Hsplit.
    simpl in Hall. apply andb_prop in Hall as [Hc Hall].
    rewrite str_app_cons in Hplus. simpl in Hplus. rewrite Hc in Hplus.
    destruct (plus true p (body +:+ rest) k) eqn:Hb; [done|].
    destruct x as [|c2 x].
    + rewrite str_app_nil_l in Hsplit. by subst t.
    + by apply (IH rest Hall Hb (String c2 x) t).
Qed.

(** When it succeeds, it does so after the longest run that lets the
    continuation succeed. *)
Lemma plus_greedy_some {A} (p : ascii → bool) (k : string → option A) body :
  ∀ rest r,
    all p body = true →
    match rest with EmptyString => True | String c _ => p c = false end →
    plus true p (body +:+ rest) k = Some r →
    ∃ x t, body = x +:+ t ∧ x ≠ EmptyString ∧ k (t +:+ rest) = Some r
           ∧ ∀ x2 t2, body = x2 +:+ t2 →
               String.length x < String.length x2 → k (t2 +:+ rest) = None.
Proof.
  induction body as [|c body IH]; intros rest r Hall Hrest Hplus.
  - simpl in Hplus. destruct rest as [|c rest]; [done|].
    simpl in Hplus. by rewrite Hrest in Hplus.
  - simpl in Hall. apply andb_prop in Hall as [Hc Hall].
    rewrite str_app_cons in Hplus. simpl in Hplus. rewrite Hc in Hplus.
    destruct (plus true p (body +:+ rest) k) as [a|] eqn:Hb.
    + injection Hplus as ->.
      destruct (IH rest r Hall Hrest Hb) as (x & t & -> & Hne & Hk & Hmax).
      exists (String c x), t. split_and!; [done..|].
      intros [|c2 x2] t2 Hsplit Hlen; [simpl in Hlen; lia|].
      rewrite !str_app_cons in Hsplit. injection Hsplit as _ Hsplit.
      apply (Hmax x2 t2 Hsplit). simpl in Hlen. lia.
    + exists (String c EmptyString), body. split_and!; [done..|].
      intros [|c2 x2] t2 Hsplit Hlen; [simpl in Hlen; lia|].
      rewrite str_app_cons in Hsplit. injection Hsplit as _ Hsplit.
      apply (plus_greedy_none p k body rest Hall Hb x2 t2 Hsplit).
      intros ->. simpl in Hlen. lia.
Qed.

(** The lazy repetition stops after the shortest such run. *)

(** After a match that consumed text, [findall] goes on with the rest. *)
Lemma findall_from_skip r n :
  ∀ s, n ≤ String.length s → s ≠ EmptyString ∨ n = 0 →
       findall_from r n s = findall_from r 0 (drop n s).
Proof.
  induction n as [|n IH]; intros s Hn Hs; [by destruct s|].
  destruct s as [|c s]; [by destruct Hs|]. simpl in *.
  destruct (decide (n = 0)) as [->|Hn0].
  - by destruct s.
  - apply IH; [lia|]. left. intros ->. simpl in Hn. lia.
Qed.

Lemma findall_match r pre rem cap :
  pre ≠ EmptyString →
  match_at r (pre +:+ rem) = Some (cap, rem) →
  findall r (pre +:+ rem) = cap :: findall r rem.
Proof.
  intros Hne Hm. unfold findall.
  destruct pre as [|c pre]; [done|]. rewrite str_app_cons in *. simpl.
  rewrite Hm. f_equal. rewrite str_length_app.
  replace (S (_ + _) - _ - 1) with (String.length pre) by lia.
  destruct (decide (pre = EmptyString)) as [->|Hp]; [done|].
  rewrite findall_from_skip.
  - by rewrite str_drop_app.
  - rewrite str_length_app. lia.
  - left. by destruct pre.
Qed.

Lemma findall_no_match r c s :
  match_at r (String c s) = None → findall r (String c s) = findall r s.
Proof. intros Hm. unfold findall. simpl. by rewrite Hm. Qed.


(** The end of the patterns: a dot and one of the two extensions. *)
Lemma extension_cont {A} cap s (K : string → string → option A) r :
  run (Cat (Lit ".") (Alt (Lit "mp4") (Lit "webm"))) cap s K = Some r
  ↔ ∃ ext s3, (ext = "mp4" ∨ ext = "webm")
              ∧ s = "." +:+ ext +:+ s3 ∧ K cap s3 = Some r.
Proof.
  cbn [run]. split.
  - destruct (strip_prefix "." s) as [s1|] eqn:H1; [|done].
    apply strip_prefix_spec in H1 as ->.
    destruct (strip_prefix "mp4" s1) as [s2|] eqn:H2.
    + apply strip_prefix_spec in H2 as ->.
      destruct (K cap s2) as [a|] eqn:HK.
      * intros [= <-]. exists "mp4", s2. auto.
      * done.
    + destruct (strip_prefix "webm" s1) as [s2|] eqn:H3; [|done].
      apply strip_prefix_spec in H3 as ->.
      intros HK. exists "webm", s2. auto.
  - intros (ext & s3 & [-> | ->] & -> & HK); cbv [String.append]; simpl;
      by rewrite HK.
Qed.

(** Text that quote-free text followed by a quote starts with, is in the
    quote-free part. *)
Lemma prefix_before_quote (lit t rest s3 : string) :
  all (λ c, negb (is_quote c)) lit = true →
  quote_or_end rest →
  t +:+ rest = lit +:+ s3 →
  ∃ t3, t = lit +:+ t3 ∧ s3 = t3 +:+ rest.
Proof.
  revert t. induction lit as [|a lit IH]; intros t Hlit Hrest Heq.
  - exists t. by rewrite !str_app_nil_l in *.
  - simpl in Hlit. apply andb_prop in Hlit as [Ha Hlit].
    destruct t as [|b t].
    + rewrite str_app_nil_l in Heq. subst rest. simpl in Hrest.
      by rewrite Hrest in Ha.
    + rewrite !str_app_cons in Heq. injection Heq as -> Heq.
      destruct (IH t Hlit Hrest Heq) as (t3 & -> & ->). by exists t3.
Qed.

End RegexFacts.

Section GreedyCapture.
Import PyStr Re Patterns.
Context (attr : string) (q : ascii) (body rest : string).
Hypothesis Hq : is_quote q = true.
Hypothesis Hbody : all (λ c, negb (is_quote c)) body = true.
Hypothesis Hrest : quote_or_end rest.

Lemma match_at_video_attr :
  match_at (video_attr attr) (tag_text attr q body rest)
  = plus true (in_set true quotes) (body +:+ rest) (after_value body rest).
Proof.
  unfold match_at, video_attr, video_path, tag_text. cbn [run].
  rewrite <- str_app_assoc, strip_prefix_app.
  replace (in_set false quotes q) with true by (symmetry; exact Hq).
  rewrite strip_prefix_app.
  reflexivity.
Qed.

Lemma after_value_some t cap rem :
  all (λ c, negb (is_quote c)) t = true →
  after_value body rest (t +:+ rest) = Some (cap, rem) ↔
  ∃ ext t3, (ext = "mp4" ∨ ext = "webm") ∧ t = "." +:+ ext +:+ t3
            ∧ rem = t3 +:+ rest
            ∧ cap = take (String.length ("/video/" +:+ body +:+ rest)
                           - String.length rem) ("/video/" +:+ body +:+ rest).
Proof.
  intros Ht. unfold after_value, after_run. rewrite extension_cont. split.
  - intros (ext & s3 & Hext & Heq & HK). unfold group_end in HK.
    injection HK as <- <-.
    rewrite <- str_app_assoc in Heq.
    apply prefix_before_quote in Heq as (t3 & -> & ->); [| |done].
    + exists ext, t3. by rewrite str_app_assoc.
    + by destruct Hext as [-> | ->].
  - intros (ext & t3 & Hext & -> & -> & ->).
    exists ext, (t3 +:+ rest). split_and!; [done| |done].
    by rewrite !str_app_assoc.
Qed.

Lemma video_name_length stem ext :
  ext = "mp4" ∨ ext = "webm" →
  String.length stem + 4 ≤ String.length (stem +:+ "." +:+ ext)
  ∧ String.length (stem +:+ "." +:+ ext) ≤ String.length stem + 5.
Proof. intros [-> | ->]; rewrite !str_length_app; simpl; lia. Qed.

(** What a match at the attribute captures: the longest video name that
    the text after [/video/] starts with. *)
Lemma match_video_attr_some cap rem :
  match_at (video_attr attr) (tag_text attr q body rest) = Some (cap, rem) →
  ∃ p t, body = p +:+ t ∧ video_name p
         ∧ cap = "/video/" +:+ p ∧ rem = t +:+ rest
         ∧ ∀ p2 t2, body = p2 +:+ t2 → video_name p2 →
             String.length p2 ≤ String.length p.
Proof.
  rewrite match_at_video_attr. intros Hplus.
  apply plus_greedy_some in Hplus as (x & t & Hsplit & Hne & Hk & Hmax);
    [|exact Hbody|].
  2:{ destruct rest as [|c r]; [done|]. simpl in Hrest. unfold in_set.
      fold (is_quote c). by rewrite Hrest. }
  pose proof Hbody as Hall. rewrite Hsplit, str_all_app in Hall.
  apply andb_prop in Hall as [Hx Ht].
  apply (after_value_some t cap rem Ht) in Hk as (ext & t3 & Hext & -> & -> & ->).
  exists (x +:+ "." +:+ ext), t3.
  assert (body = (x +:+ "." +:+ ext) +:+ t3) as Hbody'.
  { rewrite Hsplit. by rewrite !str_app_assoc. }
  split_and!.
  - exact Hbody'.
  - by exists x, ext.
  - assert ("/video/" +:+ body +:+ rest
            = ("/video/" +:+ x +:+ "." +:+ ext) +:+ (t3 +:+ rest)) as ->.
    { rewrite Hbody'. by rewrite !str_app_assoc. }
    by rewrite str_take_app.
  - done.
  - intros p2 t2 Hsplit2 (stem2 & ext2 & Hne2 & Hext2 & ->).
    pose proof (video_name_length x ext Hext) as [Hlo _].
    pose proof (video_name_length stem2 ext2 Hext2) as [_ Hhi].
    destruct (decide (String.length stem2 < String.length x)) as [|Hge]; [lia|].
    rewrite !str_app_assoc in Hsplit2.
    destruct (decide (String.length x < String.length stem2)) as [Hlt|Hle].
    + pose proof (Hmax stem2 _ Hsplit2 Hlt) as Hnone.
      assert (all (λ c, negb (is_quote c)) ("." +:+ ext2 +:+ t2) = true) as Ht2.
      { pose proof Hbody as Hall. rewrite Hsplit2, str_all_app in Hall.
        by apply andb_prop in Hall as [_ ?]. }
      destruct (after_value body rest ("." +:+ ext2 +:+ t2 +:+ rest))
        as [[c r]|] eqn:Hk2.
      * rewrite !str_app_assoc in Hnone. simpl in Hnone. congruence.
      * assert (is_Some (after_value body rest (("." +:+ ext2 +:+ t2) +:+ rest)))
          as [[c r] Hs].
        { eexists (_, _). apply (after_value_some _ _ _ Ht2). exists ext2, t2. eauto. }
        rewrite !str_app_assoc in Hs. congruence.
    + assert (String.length x = String.length stem2) as Hlen by lia.
      rewrite Hsplit in Hsplit2.
      apply str_app_inj_length in Hsplit2 as [<- Heq]; [|done].
      rewrite !str_length_app.
      destruct Hext as [-> | ->], Hext2 as [-> | ->]; simpl; try lia.
      by cbv [String.append] in Heq.
Qed.

(** A match is found as soon as the text after [/video/] starts with some
    video name. *)
Lemma match_video_attr_complete p t :
  body = p +:+ t → video_name p →
  is_Some (match_at (video_attr attr) (tag_text attr q body rest)).
Proof.
  intros Hsplit (stem & ext & Hne & Hext & ->).
  rewrite match_at_video_attr.
  destruct (plus true (in_set true quotes) (body +:+ rest) (after_value body rest))
    as [r|] eqn:Hplus; [by eexists|].
  rewrite !str_app_assoc in Hsplit.
  pose proof (plus_greedy_none _ _ _ _ Hbody Hplus stem _ Hsplit Hne) as Hnone.
  assert (all (λ c, negb (is_quote c)) ("." +:+ ext +:+ t) = true) as Ht.
  { pose proof Hbody as Hall. rewrite Hsplit, str_all_app in Hall.
    by apply andb_prop in Hall as [_ ?]. }
  assert (is_Some (after_value body rest (("." +:+ ext +:+ t) +:+ rest)))
    as [[c r] Hs].
  { eexists (_, _). apply (after_value_some _ _ _ Ht). exists ext, t. eauto. }
  congruence.
Qed.

End GreedyCapture.

(** * The link classifier on roots with a plain host *)

Section RootFacts.
Import PyStr UrlParse.

Lemma host_char_plain c :
  host_char c = true →
  unsafe_url_byte c = false ∧ contains c "/?#" = false ∧ contains c "[]" = false
  ∧ is_ascii c = true.
Proof.
  destruct c as [[] [] [] [] [] [] [] []]; vm_compute; intros H;
    first [discriminate H | repeat split].
Qed.

Lemma remove_app p s t : remove p (s +:+ t) = remove p s +:+ remove p t.
Proof.
  induction s as [|c s IH]; [done|]. rewrite str_app_cons. cbn [remove].
  destruct (p c); [done|]. by rewrite str_app_cons, IH.
Qed.

Lemma remove_host host : all host_char host = true → remove unsafe_url_byte host = host.
Proof.
  induction host as [|c h IH]; [done|]. cbn [all remove]. intros [Hc Hh]%andb_prop.
  destruct (host_char_plain c Hc) as (-> & _). by rewrite IH.
Qed.

Lemma break_host host rest :
  all host_char host = true →
  break (λ c, contains c "/?#") (host +:+ String "/" rest) = (host, String "/" rest).
Proof.
  induction host as [|c h IH]; [done|]. cbn [all]. intros [Hc Hh]%andb_prop.
  rewrite str_app_cons. cbn [break].
  destruct (host_char_plain c Hc) as (_ & -> & _). by rewrite IH.
Qed.

Lemma contains_bracket_host host b :
  all host_char host = true → contains b "[]" = true → contains b host = false.
Proof.
  induction host as [|c h IH]; [done|]. intros Hall Hb.
  cbn [all] in Hall. apply andb_prop in Hall as [Hc Hh]. cbn [contains].
  destruct (host_char_plain c Hc) as (_ & _ & Hbr & _).
  destruct (Ascii.eqb_spec b c) as [->|]; [congruence|]. by apply IH.
Qed.

Lemma all_ascii_host host : all host_char host = true → all is_ascii host = true.
Proof.
  induction host as [|c h IH]; [done|]. cbn [all]. intros [Hc Hh]%andb_prop.
  destruct (host_char_plain c Hc) as (_ & _ & _ & ->). by apply IH.
Qed.

Lemma clean_url_root host rest :
  all host_char host = true →
  clean_url ("https://" +:+ host +:+ String "/" rest)
  = "https://" +:+ host +:+ String "/" (remove unsafe_url_byte rest).
Proof.
  intros Hh. unfold clean_url.
  change (lstrip c0_control_or_space ("https://" +:+ ?X)) with ("https://" +:+ X).
  change (remove unsafe_url_byte ("https://" +:+ ?X))
    with ("https://" +:+ remove unsafe_url_byte X).
  rewrite remove_app, remove_host by done.
  reflexivity.
Qed.

Lemma take_netloc_root host rest :
  all host_char host = true →
  take_netloc ("//" +:+ host +:+ String "/" rest) = Ok (host, String "/" rest).
Proof.
  intros Hh. unfold take_netloc.
  change (startswith "//" ("//" +:+ ?X)) with true. cbv iota.
  unfold _splitnetloc. change (drop 2 ("//" +:+ ?X)) with X.
  rewrite break_host by done.
  unfold check_brackets.
  rewrite !(contains_bracket_host host) by done. reflexivity.
Qed.

Lemma checknetloc_host host :
  all host_char host = true → _checknetloc host = Ok tt.
Proof.
  intros Hh. unfold _checknetloc. rewrite all_ascii_host by done.
  by rewrite orb_true_r.
Qed.

(** Any URL that starts with the root parses with the host as its network
    location. *)
Lemma urlsplit_site_root host rest :
  all host_char host = true →
  urlsplit ("https://" +:+ host +:+ String "/" rest) ""
  = Ok (mkSplit "https" host
          (split_off "?" (split_off "#" (String "/" (remove unsafe_url_byte rest))).1).1
          (split_off "?" (split_off "#" (String "/" (remove unsafe_url_byte rest))).1).2
          (split_off "#" (String "/" (remove unsafe_url_byte rest))).2).
Proof.
  intros Hh. unfold urlsplit. rewrite clean_url_root by done.
  change (split_scheme ("https://" +:+ ?X) ?d) with ("https", "//" +:+ X).
  cbv iota beta. rewrite take_netloc_root by done.
  cbv beta iota zeta delta [mbind res_bind].
  rewrite checknetloc_host by done.
  destruct (split_off "#" _) as [u f]. cbn [fst snd].
  destruct (split_off "?" u) as [u' q']. reflexivity.
Qed.

Lemma urlparse_site_root host rest :
  all host_char host = true →
  ∃ p, urlparse ("https://" +:+ host +:+ String "/" rest) "" = Ok p
       ∧ scheme p = "https" ∧ netloc p = host.
Proof.
  intros Hh. unfold urlparse. rewrite urlsplit_site_root by done.
  cbv beta iota zeta delta [mbind res_bind s_scheme s_netloc s_path s_query s_fragment].
  destruct (_ && _); [destruct (_splitparams _)|]; eexists; split_and!; reflexivity.
Qed.

Lemma urlparse_root host :
  all host_char host = true →
  urlparse (site_root host) "" = Ok (mkParse "https" host "/" "" "" "").
Proof.
  intros Hh. unfold urlparse, site_root.
  change ("/") with (String "/" "") at 1.
  rewrite urlsplit_site_root by done. reflexivity.
Qed.

Lemma nonempty_app_cons s c t : nonempty (s +:+ String c t) = true.
Proof. by destruct s. Qed.

Lemma nonempty_root host : nonempty (site_root host) = true.
Proof. reflexivity. Qed.

(** A fragment-only reference names no scheme and no network location. *)
Lemma urlparse_fragment_only f :
  urlparse (String "#" f) "https"
  = Ok (mkParse "https" "" "" "" "" (remove unsafe_url_byte f)).
Proof.
  unfold urlparse, urlsplit.
  change (clean_url (String "#" f)) with (String "#" (remove unsafe_url_byte f)).
  change (clean_scheme "https") with "https".
  assert (split_scheme (String "#" (remove unsafe_url_byte f)) "https"
          = ("https", String "#" (remove unsafe_url_byte f))) as ->.
  { unfold split_scheme. cbn [partition].
    change (Ascii.eqb ":" "#") with false. cbv iota.
    by destruct (partition ":" (remove unsafe_url_byte f)) as [pre [post|]]. }
  reflexivity.
Qed.

End RootFacts.

(** * Properties of the crawl loop *)

Section CrawlFacts.
Context (cfg : config) (w : world).

Lemma loop_cond_true st :
  loop_cond cfg st = true →
  to_crawl st ≠ ∅ ∧ (Z.of_nat (size (visited_pages st)) < MAX_PAGES cfg)%Z.
Proof.
  unfold loop_cond. intros [H1 H2]%andb_prop. split.
  - apply negb_true_iff, bool_decide_eq_false in H1. exact H1.
  - by apply Z.ltb_lt.
Qed.

Lemma loop_cond_false st :
  loop_cond cfg st = false →
  to_crawl st = ∅ ∨ (MAX_PAGES cfg ≤ Z.of_nat (size (visited_pages st)))%Z.
Proof.
  unfold loop_cond. intros [H|H]%andb_false_iff.
  - left. apply negb_false_iff, bool_decide_eq_true in H. exact H.
  - right. by apply Z.ltb_ge.
Qed.

(** A pass that finds its URL already visited only drops it from the
    frontier. *)
Lemma iteration_skip url st :
  url ∈ visited_pages st →
  iteration cfg w url st
  = Continue (mkCrawl (visited_pages st) (to_crawl st ∖ {[url]})
                (found_videos st) (fetched st)).
Proof.
  intros Hin. unfold iteration. simpl. by rewrite bool_decide_eq_true_2.
Qed.

(** A pass that fetches: whatever happens next, the URL is logged and
    visited, nothing leaves the set of videos, and whatever enters the
    frontier is unvisited. *)
Lemma iteration_fetch url st :
  url ∉ visited_pages st →
  let st' := outcome_state (iteration cfg w url st) in
  visited_pages st' = visited_pages st ∪ {[url]}
  ∧ fetched st' = (fetched st ++ [url])%list
  ∧ found_videos st ⊆ found_videos st'
  ∧ (∀ u, u ∈ to_crawl st' →
       u ∈ to_crawl st ∖ {[url]} ∨ u ∉ visited_pages st').
Proof.
  intros Hnin. unfold iteration. simpl.
  rewrite bool_decide_eq_false_2 by done.
  destruct (requests_get w url) as [html|]; simpl.
  - destruct (find_video_urls w html url) as [vids|e]; simpl.
    + destruct (gather_page_urls cfg w html url) as [pages|e]; simpl;
        (split_and!; [done | done | set_solver | set_solver]).
    + split_and!; [done | done | set_solver | set_solver].
  - split_and!; [done | done | set_solver | set_solver].
Qed.

Lemma iteration_failed_fetch url st :
  url ∉ visited_pages st →
  requests_get w url = None →
  iteration cfg w url st
  = Continue (mkCrawl (visited_pages st ∪ {[url]}) (to_crawl st ∖ {[url]})
                (found_videos st) (fetched st ++ [url])).
Proof.
  intros Hnin Hget. unfold iteration. simpl.
  rewrite bool_decide_eq_false_2 by done. by rewrite Hget.
Qed.

Lemma crawl_inv_initial : crawl_inv (initial cfg).
Proof.
  unfold crawl_inv, initial. simpl. split_and!.
  - set_solver.
  - constructor.
  - done.
Qed.

(** The invariant survives a pass, also one cut short by an exception. *)
Lemma crawl_inv_iteration url st :
  crawl_inv st → url ∈ to_crawl st →
  crawl_inv (outcome_state (iteration cfg w url st)).
Proof.
  intros (Hdisj & Hnd & Hset) Hin.
  assert (url ∉ visited_pages st) as Hnin by set_solver.
  destruct (iteration_fetch url st Hnin) as (Hv & Hf & _ & Htc).
  unfold crawl_inv. rewrite Hv, Hf. split_and!.
  - intros u Hu Hu'. destruct (Htc u Hu) as [H|H].
    + set_solver.
    + apply H. by rewrite Hv.
  - apply NoDup_app. split_and!; [done | | apply NoDup_singleton].
    intros u Hu ->%list_elem_of_singleton. apply Hnin. rewrite <- Hset.
    by apply elem_of_list_to_set.
  - rewrite list_to_set_app_L, Hset. simpl. set_solver.
Qed.

Lemma reachable_inv st : reachable cfg w st → crawl_inv st.
Proof.
  induction 1 as [|st st' _ IH Hstep].
  - apply crawl_inv_initial.
  - inversion Hstep as [st0 url Hc Hin Hst0 Ho]. subst st0.
    pose proof (crawl_inv_iteration url st IH Hin) as Hinv.
    by rewrite Ho in Hinv.
Qed.

Lemma inv_size st :
  crawl_inv st → length (fetched st) = size (visited_pages st).
Proof.
  intros (_ & Hnd & Hset). rewrite <- Hset.
  by rewrite size_list_to_set.
Qed.

Lemma iteration_visited_mono url st :
  visited_pages st ⊆ visited_pages (outcome_state (iteration cfg w url st)).
Proof.
  destruct (decide (url ∈ visited_pages st)) as [Hin|Hnin].
  - by rewrite iteration_skip.
  - destruct (iteration_fetch url st Hnin) as (-> & _). set_solver.
Qed.

Lemma iteration_fetched_grows url st :
  ∃ l, fetched (outcome_state (iteration cfg w url st)) = (fetched st ++ l)%list.
Proof.
  destruct (decide (url ∈ visited_pages st)) as [Hin|Hnin].
  - rewrite iteration_skip by done. exists []. simpl. by rewrite app_nil_r.
  - destruct (iteration_fetch url st Hnin) as (_ & -> & _). by exists [url].
Qed.

Lemma next_inv st st' : crawl_inv st → next cfg w st st' → crawl_inv st'.
Proof.
  intros Hinv Hstep. inversion Hstep as [st0 url Hc Hin Hst0 Ho]. subst st0.
  pose proof (crawl_inv_iteration url st Hinv Hin) as Hinv'.
  by rewrite Ho in Hinv'.
Qed.

Lemma run_inv st st' : crawl_inv st → rtc (next cfg w) st st' → crawl_inv st'.
Proof. intros Hinv Hrun. induction Hrun; eauto using next_inv. Qed.

Lemma run_reachable st st' :
  reachable cfg w st → rtc (next cfg w) st st' → reachable cfg w st'.
Proof. intros Hr Hrun. induction Hrun; eauto using reachable_step. Qed.

Lemma run_visited_mono st st' :
  rtc (next cfg w) st st' → visited_pages st ⊆ visited_pages st'.
Proof.
  induction 1 as [|st st1 st2 Hstep _ IH]; [done|].
  inversion Hstep as [st0 url Hc Hin Hst0 Ho]. subst st0.
  pose proof (iteration_visited_mono url st) as Hm. rewrite Ho in Hm.
  simpl in Hm. set_solver.
Qed.

Lemma run_fetched_grows st st' :
  rtc (next cfg w) st st' → ∃ l, fetched st' = (fetched st ++ l)%list.
Proof.
  induction 1 as [st|st st1 st2 Hstep _ [l2 IH]].
  - exists []. by rewrite app_nil_r.
  - inversion Hstep as [st0 url Hc Hin Hst0 Ho]. subst st0.
    destruct (iteration_fetched_grows url st) as [l1 Hl1].
    rewrite Ho in Hl1. simpl in Hl1.
    exists (l1 ++ l2)%list. by rewrite IH, Hl1, <- app_assoc.
Qed.

(** Under the invariant a pass always fetches, and the visited set gains
    exactly the popped URL. *)
Lemma inv_iteration_size url st :
  crawl_inv st → url ∈ to_crawl st →
  size (visited_pages (outcome_state (iteration cfg w url st)))
  = S (size (visited_pages st)).
Proof.
  intros (Hdisj & _) Hin.
  assert (url ∉ visited_pages st) as Hnin by set_solver.
  destruct (iteration_fetch url st Hnin) as (-> & _).
  rewrite size_union by set_solver. rewrite size_singleton. lia.
Qed.

(** A pass starts below the ceiling and adds one URL. *)
Lemma step_ceiling st o :
  crawl_inv st → step cfg w st o →
  (Z.of_nat (size (visited_pages (outcome_state o))) ≤ MAX_PAGES cfg)%Z
  ∧ (Z.of_nat (length (fetched (outcome_state o))) ≤ MAX_PAGES cfg)%Z.
Proof.
  intros Hinv Hstep. inversion Hstep as [st0 url Hc Hin Hst0 Ho]. subst st0.
  pose proof (crawl_inv_iteration url st Hinv Hin) as Hinv'.
  rewrite (inv_size _ Hinv'), (inv_iteration_size url st Hinv Hin).
  apply loop_cond_true in Hc as [_ Hc]. lia.
Qed.

Lemma reachable_ceiling st :
  (0 ≤ MAX_PAGES cfg)%Z → reachable cfg w st →
  (Z.of_nat (size (visited_pages st)) ≤ MAX_PAGES cfg)%Z
  ∧ (Z.of_nat (length (fetched st)) ≤ MAX_PAGES cfg)%Z.
Proof.
  intros Hmax Hreach. destruct Hreach as [|st st' Hreach Hstep].
  - change (visited_pages (initial cfg)) with (∅ : gset string).
    rewrite size_empty. simpl. lia.
  - apply (step_ceiling st (Continue st')); [|done].
    by apply reachable_inv.
Qed.

End CrawlFacts.

Section Termination.
Context (cfg : config) (w : world).

(** [set.pop] on a set that is not empty returns one of its elements. *)
Lemma pop_some i (s : gset string) :
  s ≠ ∅ → ∃ url, pop w i s = Some url ∧ url ∈ s.
Proof.
  intros Hne. unfold pop.
  assert (size s ≠ 0) as Hsz by (intros ?%size_empty_inv; set_solver).
  destruct (elements s !! (pop_choice w i mod size s)) as [url|] eqn:Hl.
  - exists url. split; [done|]. apply elem_of_elements.
    by eapply list_elem_of_lookup_2.
  - apply lookup_ge_None in Hl. unfold size, set_size in *. simpl in *.
    pose proof (Nat.mod_upper_bound (pop_choice w i) (length (elements s)) Hsz).
    lia.
Qed.

Lemma pop_singleton i (url : string) : pop w i {[url]} = Some url.
Proof.
  unfold pop. rewrite size_singleton, elements_singleton.
  by rewrite Nat.mod_1_r.
Qed.

(** From a state that satisfies the invariant and is [k] pages below the
    ceiling, [k] passes and one more test of the condition end the loop. *)
Lemma crawl_loop_enough k :
  ∀ i st extra,
    crawl_inv st →
    (MAX_PAGES cfg - Z.of_nat (size (visited_pages st)) ≤ Z.of_nat k)%Z →
    ∃ o, crawl_loop cfg w (S k + extra) i st = Some o
         ∧ (∀ st', o = Continue st' →
              loop_cond cfg st' = false ∧ rtc (next cfg w) st st').
Proof.
  induction k as [|k IH]; intros i st extra Hinv Hk; simpl;
    destruct (loop_cond cfg st) eqn:Hc.
  - apply loop_cond_true in Hc as [_ Hc]. lia.
  - eexists. split; [done|]. intros st' [= <-]. split; [done|]. apply rtc_refl.
  - pose proof Hc as [Hne Hlt]%loop_cond_true.
    destruct (pop_some i (to_crawl st) Hne) as (url & -> & Hin).
    pose proof (crawl_inv_iteration cfg w url st Hinv Hin) as Hinv'.
    pose proof (inv_iteration_size cfg w url st Hinv Hin) as Hsz.
    destruct (iteration cfg w url st) as [st1|e st1] eqn:Hit.
    + simpl in Hinv', Hsz.
      destruct (IH (S i) st1 extra Hinv') as (o & Ho & Hfin); [lia|].
      exists o. split; [exact Ho|]. intros st' ->.
      destruct (Hfin st' eq_refl) as [Hc' Hrun]. split; [done|].
      eapply rtc_l; [|exact Hrun]. unfold next. rewrite <- Hit.
      by constructor.
    + eexists. split; [done|]. intros st' [=].
  - eexists. split; [done|]. intros st' [= <-]. split; [done|]. apply rtc_refl.
Qed.

(** Every pass either visits a URL that was not visited, below the
    ceiling, or leaves the visited set alone and shrinks the frontier. *)
Lemma next_progress st st' :
  next cfg w st st' →
  (∃ url, (url ∉ visited_pages st)
          ∧ visited_pages st' = visited_pages st ∪ {[url]}
          ∧ size (visited_pages st') = S (size (visited_pages st))
          ∧ (Z.of_nat (size (visited_pages st')) ≤ MAX_PAGES cfg)%Z)
  ∨ (visited_pages st' = visited_pages st
     ∧ to_crawl st' ⊂ to_crawl st
     ∧ size (to_crawl st') < size (to_crawl st)).
Proof.
  intros Hstep. inversion Hstep as [st0 url Hc Hin Hst0 Ho]. subst st0.
  apply loop_cond_true in Hc as [_ Hc].
  destruct (decide (url ∈ visited_pages st)) as [Hv|Hv].
  - right. rewrite iteration_skip in Ho by done. injection Ho as <-. simpl.
    split; [done|].
    assert (to_crawl st ∖ {[url]} ⊂ to_crawl st) as Hsub by set_solver.
    split; [done|]. by apply subset_size.
  - left. exists url. split; [done|].
    destruct (iteration_fetch cfg w url st Hv) as (Hvis & _).
    simpl in Hvis. rewrite Ho in Hvis. simpl in Hvis. rewrite Hvis. split; [done|].
    rewrite size_union by set_solver. rewrite size_singleton.
    split; lia.
Qed.

Lemma next_acc_lex n1 :
  ∀ n2 st,
    (MAX_PAGES cfg - Z.of_nat (size (visited_pages st)) ≤ Z.of_nat n1)%Z →
    size (to_crawl st) ≤ n2 →
    Acc (λ st' st, next cfg w st st') st.
Proof.
  induction n1 as [|n1 IH1]; intros n2; induction n2 as [|n2 IH2];
    intros st H1 H2; constructor; intros st' Hnext;
    destruct (next_progress st st' Hnext)
      as [(url & _ & _ & Hsz & Hmax)|(Hvis & _ & Hsz)]; try lia;
    first [ apply IH2; [rewrite Hvis; lia | lia]
          | apply (IH1 (size (to_crawl st'))); lia ].
Qed.

(** No run of the loop goes on for ever. *)
Lemma next_acc st : Acc (λ st' st, next cfg w st st') st.
Proof.
  apply (next_acc_lex
           (Z.to_nat (MAX_PAGES cfg - Z.of_nat (size (visited_pages st))))
           (size (to_crawl st))); lia.
Qed.

End Termination.

(** C4: in every crawl run the frontier and the visited set are disjoint at
    the head of each pass of the loop, the visited set only grows (over one
    pass, also one that ends in an exception, and over any number of
    passes), and the log of the pages fetched never holds a URL twice. *)
Theorem frontier_visited_invariant (cfg : config) (w : world) (st : crawl_state) :
  reachable cfg w st →
  to_crawl st ## visited_pages st
  ∧ NoDup (fetched st)
  ∧ (∀ o, step cfg w st o →
       visited_pages st ⊆ visited_pages (outcome_state o)
       ∧ NoDup (fetched (outcome_state o)))
  ∧ (∀ st', rtc (next cfg w) st st' →
       visited_pages st ⊆ visited_pages st'
       ∧ to_crawl st' ## visited_pages st'
       ∧ NoDup (fetched st')).
Proof.
  intros Hreach. pose proof (reachable_inv cfg w st Hreach) as Hinv.
  split; [apply Hinv|]. split; [apply Hinv|]. split.
  - intros o Hstep. inversion Hstep as [st0 url Hc Hin Hst0 Ho]. subst st0.
    split; [apply iteration_visited_mono|].
    apply (crawl_inv_iteration cfg w url st Hinv Hin).
  - intros st' Hrun. split; [by apply (run_visited_mono cfg w)|].
    pose proof (run_inv cfg w st st' Hinv Hrun) as Hinv'.
    split; apply Hinv'.
Qed.

(** C5: with a ceiling that is not negative, the visited set never holds
    more than [MAX_PAGES] URLs and no more than [MAX_PAGES] pages are
    fetched, at the head of every pass and after it, however the pass
    ends. *)
Theorem page_ceiling (cfg : config) (w : world) (st : crawl_state) :
  (0 ≤ MAX_PAGES cfg)%Z →
  reachable cfg w st →
  (Z.of_nat (size (visited_pages st)) ≤ MAX_PAGES cfg)%Z
  ∧ (Z.of_nat (length (fetched st)) ≤ MAX_PAGES cfg)%Z
  ∧ (∀ o, step cfg w st o →
       (Z.of_nat (size (visited_pages (outcome_state o))) ≤ MAX_PAGES cfg)%Z
       ∧ (Z.of_nat (length (fetched (outcome_state o))) ≤ MAX_PAGES cfg)%Z).
Proof.
  intros Hmax Hreach. pose proof (reachable_inv cfg w st Hreach) as Hinv.
  destruct (reachable_ceiling cfg w st Hmax Hreach) as [Hv Hf].
  split; [exact Hv|]. split; [exact Hf|].
  intros o Hstep. exact (step_ceiling cfg w st o Hinv Hstep).
Qed.


(** What counts as a failed fetch: the call raises, or the status is an
    error status. *)
Lemma requests_get_none (w : world) (url : string) :
  requests_get w url = None
  ↔ http_get w url = NoAnswer
    ∨ ∃ status_code text, http_get w url = Answer status_code text
                          ∧ (400 ≤ status_code < 600)%Z.
Proof.
  unfold requests_get, raise_for_status.
  destruct (http_get w url) as [|code text].
  - split; [by left|done].
  - destruct (_ && _) eqn:Hc.
    + apply andb_prop in Hc as [H1%Z.leb_le H2%Z.ltb_lt].
      split; [|done]. intros _. right. exists code, text. split; [done|lia].
    + split; [done|]. intros [?|(c & t & [= <- <-] & H1 & H2)]; [done|].
      apply andb_false_iff in Hc as [Hc%Z.leb_gt|Hc%Z.ltb_ge]; lia.
Qed.

(** Any other status lets the text through. *)
Lemma requests_get_other_status (w : world) (url : string) status_code text :
  http_get w url = Answer status_code text →
  ¬ (400 ≤ status_code < 600)%Z →
  requests_get w url = Some text.
Proof.
  intros Hget Hcode. unfold requests_get, raise_for_status. rewrite Hget.
  destruct (_ && _) eqn:Hc; [|done].
  apply andb_prop in Hc as [H1%Z.leb_le H2%Z.ltb_lt]. lia.
Qed.

(** C6 (counterexample): an answer with a status that is neither a
    success nor an error status is no failed fetch.  A root that answers
    with status 300 and a page that lists a video has the video found and
    downloaded, so the result is not empty; with a page whose anchor
    [urljoin] rejects, the crawl ends with that exception. *)
Lemma other_status_is_not_a_failure :
  http_get Cases.world_choices (BASE_URL CONFIG) = Answer 300 Cases.choices_html
  ∧ (∃ d, main CONFIG Cases.world_choices 3 Site.empty_disk
          = Some (mkCrawl {[BASE_URL CONFIG]} ∅
                    {["https://enterawebsite.com/video/intro.mp4"]} [BASE_URL CONFIG],
                  d, Ok tt)
          ∧ fs d !! "videos/intro.mp4" = Some "intro")
  ∧ http_get Cases.world_choices_bad (BASE_URL CONFIG) = Answer 300 Cases.bad_html
  ∧ (∃ st, main CONFIG Cases.world_choices_bad 3 Site.empty_disk
           = Some (st, Site.empty_disk, Raise ValueError)).
Proof.
  split; [reflexivity|]. split.
  - eexists. split; vm_compute; reflexivity.
  - split; [reflexivity|]. eexists. vm_compute. reflexivity.
Qed.

(** C6 (amended): a fetch fails exactly when [requests.get] raises or the
    answer has a status from 400 to 599.  A failed fetch in a run ends its
    pass normally with the URL in the visited set, the run goes on from the
    state reached, and no later pass fetches that URL; when the root URL
    itself cannot be fetched, [main] returns without an exception, with no
    video found and nothing downloaded, and with the root as the one page
    visited and fetched when the ceiling is positive.  An answer with any
    other status is no failure: its text is handled as a page. *)
Theorem fetch_failure_is_not_fatal (cfg : config) (w : world) :
  (∀ url,
     requests_get w url = None
     ↔ http_get w url = NoAnswer
       ∨ ∃ status_code text, http_get w url = Answer status_code text
                             ∧ (400 ≤ status_code < 600)%Z)
  ∧ (∀ st url,
     reachable cfg w st → loop_cond cfg st = true → url ∈ to_crawl st →
     requests_get w url = None →
     ∃ st', iteration cfg w url st = Continue st'
            ∧ reachable cfg w st'
            ∧ url ∈ visited_pages st'
            ∧ fetched st' = (fetched st ++ [url])%list
            ∧ ∀ st'' o, rtc (next cfg w) st' st'' → step cfg w st'' o →
                ∃ later, fetched (outcome_state o) = (fetched st' ++ later)%list
                         ∧ url ∉ later)
  ∧ (requests_get w (BASE_URL cfg) = None →
     ∀ n d, ∃ st, main cfg w (S (S n)) d = Some (st, d, Ok tt)
                  ∧ loop_cond cfg st = false
                  ∧ found_videos st = ∅
                  ∧ visited_pages st ⊆ {[BASE_URL cfg]}
                  ∧ ((0 < MAX_PAGES cfg)%Z →
                     visited_pages st = {[BASE_URL cfg]}
                     ∧ to_crawl st = ∅
                     ∧ fetched st = [BASE_URL cfg]))
  ∧ (∀ url status_code text,
       http_get w url = Answer status_code text →
       ¬ (400 ≤ status_code < 600)%Z →
       requests_get w url = Some text).
Proof.
  split; [apply requests_get_none|]. split; [|split].
  - intros st url Hreach Hc Hin Hget.
    pose proof (reachable_inv cfg w st Hreach) as Hinv.
    assert (url ∉ visited_pages st) as Hnin by (destruct Hinv; set_solver).
    pose proof (iteration_failed_fetch cfg w url st Hnin Hget) as Hit.
    eexists. split; [exact Hit|].
    assert (reachable cfg w
              (mkCrawl (visited_pages st ∪ {[url]}) (to_crawl st ∖ {[url]})
                 (found_videos st) (fetched st ++ [url]))) as Hreach'.
    { eapply reachable_step; [exact Hreach|]. rewrite <- Hit. by constructor. }
    split; [exact Hreach'|]. simpl. split; [set_solver|]. split; [done|].
    intros st'' o Hrun Hstep.
    destruct (run_fetched_grows cfg w _ _ Hrun) as [l1 Hl1]. simpl in Hl1.
    inversion Hstep as [st0 url' Hc' Hin' Hst0 Ho]. subst st0.
    destruct (iteration_fetched_grows cfg w url' st'') as [l2 Hl2].
    pose proof (run_inv cfg w _ _ (reachable_inv cfg w _ Hreach') Hrun) as Hinv''.
    destruct (crawl_inv_iteration cfg w url' st'' Hinv'' Hin') as (_ & Hnd & _).
    rewrite Hl2, Hl1 in Hnd. rewrite Hl2, Hl1.
    exists (l1 ++ l2)%list. split; [by rewrite <- !app_assoc|].
    rewrite <- !app_assoc in Hnd.
    apply NoDup_app in Hnd as (_ & _ & Hnd).
    apply NoDup_app in Hnd as (_ & Hnd & _).
    apply Hnd. by apply list_elem_of_singleton.
  - intros Hget n d. unfold main. simpl.
    destruct (loop_cond cfg (initial cfg)) eqn:Hc.
    + unfold initial at 1. simpl. rewrite pop_singleton.
      rewrite iteration_failed_fetch by (done || set_solver).
      set (st1 := mkCrawl _ _ _ _).
      assert (loop_cond cfg st1 = false) as Hc1.
      { unfold loop_cond, st1. simpl.
        rewrite bool_decide_eq_true_2 by set_solver. done. }
      rewrite Hc1. simpl. rewrite bool_decide_eq_true_2 by done.
      exists st1. split_and!; [done | done | done | set_solver |].
      intros _. unfold st1. simpl. split_and!; [set_solver | set_solver | done].
    + simpl. rewrite bool_decide_eq_true_2 by done.
      exists (initial cfg). split_and!; [done | done | done | set_solver |].
      intros Hmax. exfalso.
      apply loop_cond_false in Hc as [Hc|Hc].
      * simpl in Hc. set_solver.
      * change (visited_pages (initial cfg)) with (∅ : gset string) in Hc.
        rewrite size_empty in Hc. simpl in Hc. lia.
  - apply requests_get_other_status.
Qed.

(** C8: the crawl loop terminates.  From the initial state, [MAX_PAGES]
    passes and one more test of the condition always suffice: the loop
    then has stopped, by an exception or because the frontier is empty or
    the visited set has reached the ceiling.  Every pass either adds an
    unvisited URL to the visited set, which stays within the ceiling, or
    leaves the visited set alone and strictly shrinks the frontier; hence
    no run, from any state and with any choices of [set.pop], is
    infinite. *)
Theorem crawl_terminates (cfg : config) (w : world) :
  (∀ extra, ∃ o,
     crawl_loop cfg w (S (Z.to_nat (MAX_PAGES cfg)) + extra) 0 (initial cfg) = Some o
     ∧ ∀ st, o = Continue st →
         reachable cfg w st
         ∧ (to_crawl st = ∅
            ∨ (MAX_PAGES cfg ≤ Z.of_nat (size (visited_pages st)))%Z))
  ∧ (∀ st st', next cfg w st st' →
       (∃ url, (url ∉ visited_pages st)
               ∧ visited_pages st' = visited_pages st ∪ {[url]}
               ∧ size (visited_pages st') = S (size (visited_pages st))
               ∧ (Z.of_nat (size (visited_pages st')) ≤ MAX_PAGES cfg)%Z)
       ∨ (visited_pages st' = visited_pages st
          ∧ to_crawl st' ⊂ to_crawl st
          ∧ size (to_crawl st') < size (to_crawl st)))
  ∧ (∀ st, Acc (λ st' st, next cfg w st st') st).
Proof.
  split_and!.
  - intros extra.
    destruct (crawl_loop_enough cfg w (Z.to_nat (MAX_PAGES cfg)) 0 (initial cfg) extra)
      as (o & Ho & Hfin).
    + apply crawl_inv_initial.
    + lia.
    + exists o. split; [exact Ho|]. intros st ->.
      destruct (Hfin st eq_refl) as [Hc Hrun]. split.
      * eapply run_reachable; [constructor | exact Hrun].
      * by apply loop_cond_false.
  - apply next_progress.
  - apply next_acc.
Qed.

(** * Properties of the download stage *)

Section DownloadFacts.
Import PyStr UrlParse.
Context (w : world).

(** A file name that is not empty joins to a path longer than the
    folder. *)
Lemma path_join_length dest filename :
  nonempty filename = true →
  String.length dest < String.length (path_join dest filename).
Proof.
  intros Hne. unfold path_join.
  destruct filename as [|c f]; [done|].
  destruct (_ || _); rewrite !str_length_app; simpl; lia.
Qed.

(** The paths on the way to a folder are no longer than the folder. *)
Lemma ancestors_length s :
  ∀ pre p, p ∈ ancestors pre s → String.length p ≤ String.length (pre +:+ s).
Proof.
  induction s as [|c s IH]; intros pre p; cbn [ancestors].
  - intros ->%list_elem_of_singleton. by rewrite str_app_nil_r.
  - assert (String.length (pre +:+ String c s)
            = S (String.length (pre +:+ s))) as Hlen.
    { rewrite !str_length_app. simpl. lia. }
    assert (∀ x, String.length ((pre +:+ String x EmptyString) +:+ s)
                 = String.length (pre +:+ String c s)) as Hstep.
    { intros x. rewrite !str_length_app. simpl. lia. }
    destruct (Ascii.eqb c "/").
    + intros [->|Hin]%elem_of_cons.
      * rewrite str_length_app. simpl. lia.
      * apply IH in Hin. by rewrite (Hstep "/"%char) in Hin.
    + intros Hin. apply IH in Hin. by rewrite (Hstep c) in Hin.
Qed.

(** A file at a path longer than the folder is not in the way of
    [makedirs]. *)
Lemma makedirs_insert dest files out content :
  String.length dest < String.length out →
  makedirs dest (<[out := content]> files) = makedirs dest files.
Proof.
  intros Hlen. unfold makedirs. destruct (negb (nonempty dest)); [done|].
  assert (∀ l, (∀ p, p ∈ l → p ≠ out) →
               existsb (λ p, bool_decide (is_Some (<[out := content]> files !! p))) l
               = existsb (λ p, bool_decide (is_Some (files !! p))) l) as Hex.
  { induction l as [|p l IH]; intros Hl; [done|]. cbn [existsb].
    rewrite lookup_insert_ne by (symmetry; apply Hl; left).
    rewrite IH; [done|]. intros q Hq. apply Hl. by right. }
  rewrite Hex; [done|].
  intros p Hp ->. apply ancestors_length in Hp. rewrite str_app_nil_l in Hp. lia.
Qed.

(** Whatever [download_file] does to the files, it at most creates one
    that was not there, at a path longer than the folder. *)
Lemma download_file_fs url dest d d' r :
  download_file w url dest d = (d', r) →
  fs d' = fs d
  ∨ (makedirs dest (fs d) = Ok tt
     ∧ ∃ out content, String.length dest < String.length out
                      ∧ fs d !! out = None
                      ∧ fs d' = <[out := content]> (fs d)).
Proof.
  unfold download_file. simpl.
  destruct (makedirs dest (fs d)) as [[]|e] eqn:Hmk; [|intros [= <- _]; by left].
  destruct (urlparse url EmptyString) as [parsed|e]; [|intros [= <- _]; by left].
  unfold path_exists.
  destruct (mem (basename (path parsed)) _) eqn:Hsp; [intros [= <- _]; by left|].
  destruct (bool_decide _) eqn:Hex; [intros [= <- _]; by left|].
  apply bool_decide_eq_false in Hex.
  assert (String.length dest
          < String.length (path_join dest (basename (path parsed)))) as Hlen.
  { apply path_join_length. by destruct (basename (path parsed)). }
  destruct (requests_get_stream w url) as [| |chunks complete|chunks];
    [intros [= <- _]; by left | intros [= <- _]; by left | |];
    (intros [= <- _]; right; split; [done|]; simpl;
     eexists _, _; split_and!; [exact Hlen | by apply eq_None_not_Some | done]).
Qed.

Lemma download_file_keeps url dest d d' r p c :
  download_file w url dest d = (d', r) →
  fs d !! p = Some c → fs d' !! p = Some c.
Proof.
  intros Hd Hp.
  destruct (download_file_fs _ _ _ _ _ Hd)
    as [->|(_ & out & content & _ & Hnone & ->)]; [done|].
  rewrite lookup_insert_ne; [done|]. intros ->. congruence.
Qed.

Lemma download_each_keeps urls dest :
  ∀ d d' r p c,
    download_each w urls dest d = (d', r) →
    fs d !! p = Some c → fs d' !! p = Some c.
Proof.
  induction urls as [|url urls IH]; intros d d' r p c; simpl.
  - by intros [= <- _].
  - destruct (download_file w url dest d) as [d1 [[]|e]] eqn:Hd; intros Hrun Hp.
    + eapply IH; [exact Hrun|]. by eapply download_file_keeps.
    + injection Hrun as <- _. by eapply download_file_keeps.
Qed.

Lemma makedirs_fs url dest d d' r :
  download_file w url dest d = (d', r) →
  makedirs dest (fs d) = Ok tt → makedirs dest (fs d') = Ok tt.
Proof.
  intros Hd Hmk.
  destruct (download_file_fs _ _ _ _ _ Hd)
    as [->|(_ & out & content & Hlen & _ & ->)]; [done|].
  by rewrite makedirs_insert.
Qed.

Lemma path_exists_keeps url dest d d' r filename :
  download_file w url dest d = (d', r) →
  path_exists (fs d) dest filename = true →
  path_exists (fs d') dest filename = true.
Proof.
  intros Hd. unfold path_exists. destruct (mem filename _); [done|].
  intros [c Hc]%bool_decide_eq_true. apply bool_decide_eq_true.
  exists c. by eapply download_file_keeps.
Qed.

Lemma already_there_keeps url dest d d' r u :
  download_file w url dest d = (d', r) →
  already_there (fs d) dest u → already_there (fs d') dest u.
Proof.
  intros Hd (Hmk & parsed & Hp & Hex). split; [by eapply makedirs_fs|].
  exists parsed. split; [done|]. by eapply path_exists_keeps.
Qed.

(** A file that is there is skipped: no request, no write, no error. *)
Lemma download_file_skip url dest d :
  already_there (fs d) dest url →
  download_file w url dest d
  = (mkDState (fs d) (transfers d) (processed d ++ [url]), Ok tt).
Proof.
  intros (Hmk & parsed & Hp & Hex). unfold download_file. simpl.
  by rewrite Hmk, Hp, Hex.
Qed.

(** After a call that returned, the file is there. *)
Lemma download_file_ok_there url dest d d' :
  download_file w url dest d = (d', Ok tt) → already_there (fs d') dest url.
Proof.
  intros Hd. pose proof Hd as Hd0. revert Hd. unfold download_file. simpl.
  destruct (makedirs dest (fs d)) as [[]|e] eqn:Hmk; [|done].
  destruct (urlparse url EmptyString) as [parsed|e] eqn:Hp; [|done].
  destruct (path_exists (fs d) dest (basename (path parsed))) eqn:Hex.
  - intros [= <-]. simpl. split; [done|]. by exists parsed.
  - destruct (requests_get_stream w url) as [| |chunks complete|chunks];
      [done | done | | done].
    intros [= <- Hc]. split; [by eapply makedirs_fs|]. simpl.
    exists parsed. split; [done|]. unfold path_exists.
    destruct (mem _ _); [done|]. apply bool_decide_eq_true.
    rewrite lookup_insert_eq. by eexists.
Qed.

Lemma download_each_ok_there urls dest :
  ∀ d d', download_each w urls dest d = (d', Ok tt) →
          Forall (already_there (fs d') dest) urls.
Proof.
  induction urls as [|url urls IH]; intros d d'; simpl; [by constructor|].
  destruct (download_file w url dest d) as [d1 [[]|e]] eqn:Hd; [|done].
  intros Hrun. constructor; [|by eapply IH].
  apply download_file_ok_there in Hd. clear IH.
  revert d1 Hd Hrun. induction urls as [|u urls IH]; intros d1 Hd; simpl.
  - by intros [= <-].
  - destruct (download_file w u dest d1) as [d2 [[]|e]] eqn:Hd2; [|done].
    apply IH. by eapply already_there_keeps.
Qed.

Lemma download_each_all_there urls dest :
  ∀ d, Forall (already_there (fs d) dest) urls →
       download_each w urls dest d
       = (mkDState (fs d) (transfers d) (processed d ++ urls), Ok tt).
Proof.
  induction urls as [|url urls IH]; intros d Hall; simpl.
  - rewrite app_nil_r. by destruct d.
  - inversion Hall as [|? ? Hurl Hrest]; subst.
    rewrite download_file_skip by done.
    rewrite IH by done. simpl. by rewrite <- app_assoc.
Qed.

(** The calls made by the loop are a prefix of its list, all of it when
    the loop returns. *)
Lemma download_file_processed url dest d d' r :
  download_file w url dest d = (d', r) →
  processed d' = (processed d ++ [url])%list.
Proof.
  unfold download_file. simpl.
  destruct (makedirs dest (fs d)); [|by intros [= <- _]].
  destruct (urlparse url EmptyString); [|by intros [= <- _]].
  destruct (path_exists _ _ _); [by intros [= <- _]|].
  destruct (requests_get_stream w url); by intros [= <- _].
Qed.

Lemma download_each_processed urls dest :
  ∀ d d' r,
    download_each w urls dest d = (d', r) →
    ∃ called, processed d' = (processed d ++ called)%list
              ∧ called `prefix_of` urls
              ∧ (r = Ok tt → called = urls).
Proof.
  induction urls as [|url urls IH]; intros d d' r; simpl.
  - intros [= <- <-]. exists []. by rewrite app_nil_r.
  - destruct (download_file w url dest d) as [d1 [[]|e]] eqn:Hd; intros Hrun.
    + apply download_file_processed in Hd.
      destruct (IH _ _ _ Hrun) as (called & Hp & Hpre & Hall).
      exists (url :: called). rewrite Hp, Hd, <- app_assoc. simpl.
      split_and!; [done | by apply prefix_cons | intros Hr; by rewrite Hall].
    + injection Hrun as <- <-. apply download_file_processed in Hd.
      exists [url]. split_and!; [done | | done].
      apply prefix_cons, prefix_nil.
Qed.

End DownloadFacts.

(** C7: a URL whose file is found in the destination folder causes no
    request and no change to the files, and no error unless the folder
    itself cannot be made; a run over a set of URLs whose files all exist
    makes no request and changes no file; after a run that returned, the
    files of all its URLs exist, so that a second run over the same set and
    folder makes no request and changes no file, whatever the network then
    answers; and no run, returning or raising, changes or removes a file
    that was there before it. *)
Theorem existing_files_are_skipped (w : world) (dest : string) :
  (∀ url parsed d,
     UrlParse.urlparse url EmptyString = Ok parsed →
     path_exists (fs d) dest (basename (UrlParse.path parsed)) = true →
     transfers (download_file w url dest d).1 = transfers d
     ∧ fs (download_file w url dest d).1 = fs d
     ∧ (makedirs dest (fs d) = Ok tt → (download_file w url dest d).2 = Ok tt))
  ∧ (∀ found d,
       (∀ url, url ∈ found → already_there (fs d) dest url) →
       ∃ d', download_all w found dest d = (d', Ok tt)
             ∧ transfers d' = transfers d
             ∧ fs d' = fs d)
  ∧ (∀ found d d1,
       download_all w found dest d = (d1, Ok tt) →
       ∀ url, url ∈ found → already_there (fs d1) dest url)
  ∧ (∀ found d d1 (w2 : world),
       download_all w found dest d = (d1, Ok tt) →
       ∃ d2, download_all w2 found dest d1 = (d2, Ok tt)
             ∧ transfers d2 = transfers d1
             ∧ fs d2 = fs d1)
  ∧ (∀ found d d' r p c,
       download_all w found dest d = (d', r) →
       fs d !! p = Some c → fs d' !! p = Some c).
Proof.
  split_and!.
  - intros url parsed d Hp Hex. unfold download_file. simpl.
    destruct (makedirs dest (fs d)) as [[]|e]; simpl; [|done].
    rewrite Hp, Hex. done.
  - intros found d Hall. unfold download_all.
    rewrite (download_each_all_there w); [by eexists|].
    apply Forall_forall. intros url Hin. apply Hall.
    apply elem_of_elements. unfold sorted in Hin.
    by rewrite merge_sort_Permutation in Hin.
  - intros found d d1 Hrun url Hin. unfold download_all in Hrun.
    apply download_each_ok_there in Hrun.
    rewrite Forall_forall in Hrun. apply Hrun. unfold sorted.
    rewrite merge_sort_Permutation. by apply elem_of_elements.
  - intros found d d1 w2 Hrun. unfold download_all in *.
    apply download_each_ok_there in Hrun.
    rewrite (download_each_all_there w2 _ _ _ Hrun). by eexists.
  - intros found d d' r p c Hrun. by eapply download_each_keeps.
Qed.

(** C9: the download loop calls [download_file] on the URLs of the set in
    ascending order of the URL strings: the list it runs over is sorted, it
    holds exactly the elements of the set, it is the same list in whatever
    order the set hands out its elements, and the calls made are that list
    from its start, all of it when the loop returns. *)
Theorem downloads_in_sorted_order (w : world) (found : gset string)
    (dest : string) (d : dstate) :
  StronglySorted String.le (sorted found)
  ∧ sorted found ≡ₚ elements found
  ∧ (∀ l, l ≡ₚ elements found → merge_sort String.le l = sorted found)
  ∧ (∀ d' r, download_all w found dest d = (d', r) →
       ∃ called, processed d' = (processed d ++ called)%list
                 ∧ called `prefix_of` sorted found
                 ∧ (r = Ok tt → called = sorted found)).
Proof.
  split_and!.
  - apply StronglySorted_merge_sort; apply _.
  - apply merge_sort_Permutation.
  - intros l Hl. apply (StronglySorted_unique String.le).
    + apply StronglySorted_merge_sort; apply _.
    + apply StronglySorted_merge_sort; apply _.
    + unfold sorted. by rewrite !merge_sort_Permutation.
  - intros d' r Hrun. by eapply download_each_processed.
Qed.

(** C1: an error while one asset is fetched ends the download loop: the
    exception of [download_file] leaves the loop, and [main], at once.  On
    the small site, whose second video cannot be fetched, the first video
    is stored, the second raises, and the third is never asked for. *)
Theorem download_error_aborts_the_rest :
  (∀ (w : world) url urls dest d d' e,
     download_file w url dest d = (d', Raise e) →
     download_each w (url :: urls) dest d = (d', Raise e))
  ∧ ∃ st d,
      main CONFIG Site.world_ 10 Site.empty_disk = Some (st, d, Raise RequestException)
      ∧ sorted (found_videos st)
        = ["https://enterawebsite.com/video/clip.webm";
           "https://enterawebsite.com/video/intro.mp4";
           "https://enterawebsite.com/video/zoo.mp4"]
      ∧ processed d
        = ["https://enterawebsite.com/video/clip.webm";
           "https://enterawebsite.com/video/intro.mp4"]
      ∧ fs d !! "videos/clip.webm" = Some "RIFFdata"
      ∧ fs d !! "videos/zoo.mp4" = None.
Proof.
  split.
  - intros w url urls dest d d' e Hd. simpl. by rewrite Hd.
  - eexists _, _. split; [vm_compute; reflexivity|].
    split_and!; vm_compute; reflexivity.
Qed.

(** * The theorems at work on the small site *)

Lemma site_first_step :
  step CONFIG Site.world_ (initial CONFIG) (Continue Site.after_root).
Proof.
  assert (iteration CONFIG Site.world_ (BASE_URL CONFIG) (initial CONFIG)
          = Continue Site.after_root) as <- by (vm_compute; reflexivity).
  constructor; [reflexivity | vm_compute; reflexivity].
Defined.

Lemma site_after_root_reachable : reachable CONFIG Site.world_ Site.after_root.
Proof.
  eapply reachable_step; [apply reachable_initial | apply site_first_step].
Defined.

Lemma frontier_visited_invariant_witness :
  reachable CONFIG Site.world_ Site.after_root
  ∧ to_crawl Site.after_root ## visited_pages Site.after_root
  ∧ NoDup (fetched Site.after_root).
Proof.
  split; [apply site_after_root_reachable|].
  pose proof (frontier_visited_invariant CONFIG Site.world_ Site.after_root
                site_after_root_reachable) as (H1 & H2 & _).
  by split.
Defined.

Lemma page_ceiling_witness :
  (0 ≤ MAX_PAGES CONFIG)%Z
  ∧ reachable CONFIG Site.world_ Site.after_root
  ∧ (Z.of_nat (size (visited_pages Site.after_root)) ≤ MAX_PAGES CONFIG)%Z
  ∧ (Z.of_nat (length (fetched Site.after_root)) ≤ MAX_PAGES CONFIG)%Z.
Proof.
  assert (0 ≤ MAX_PAGES CONFIG)%Z as Hmax by (simpl; lia).
  split; [exact Hmax|]. split; [apply site_after_root_reachable|].
  pose proof (page_ceiling CONFIG Site.world_ Site.after_root Hmax
                site_after_root_reachable) as (H1 & H2 & _).
  by split.
Defined.


Lemma fetch_failure_is_not_fatal_witness :
  reachable CONFIG Site.world_ Site.after_root
  ∧ loop_cond CONFIG Site.after_root = true
  ∧ "https://enterawebsite.com/b" ∈ to_crawl Site.after_root
  ∧ http_get Site.world_ "https://enterawebsite.com/b" = Answer 404 "Not Found"
  ∧ requests_get Site.world_ "https://enterawebsite.com/b" = None
  ∧ (∃ st', iteration CONFIG Site.world_ "https://enterawebsite.com/b" Site.after_root
            = Continue st'
            ∧ reachable CONFIG Site.world_ st'
            ∧ "https://enterawebsite.com/b" ∈ visited_pages st')
  ∧ requests_get Site.world_down (BASE_URL CONFIG) = None
  ∧ (0 < MAX_PAGES CONFIG)%Z
  ∧ (∃ st, main CONFIG Site.world_down 2 Site.empty_disk
           = Some (st, Site.empty_disk, Ok tt)
           ∧ found_videos st = ∅
           ∧ visited_pages st = {[BASE_URL CONFIG]})
  ∧ http_get Cases.world_choices (BASE_URL CONFIG) = Answer 300 Cases.choices_html
  ∧ ¬ (400 ≤ 300 < 600)%Z
  ∧ requests_get Cases.world_choices (BASE_URL CONFIG) = Some Cases.choices_html.
Proof.
  assert ("https://enterawebsite.com/b" ∈ to_crawl Site.after_root) as Hin
    by (vm_compute; reflexivity).
  assert (loop_cond CONFIG Site.after_root = true) as Hc by (vm_compute; reflexivity).
  assert (0 < MAX_PAGES CONFIG)%Z as Hmax by (simpl; lia).
  destruct (fetch_failure_is_not_fatal CONFIG Site.world_) as (_ & Hpass & _).
  destruct (fetch_failure_is_not_fatal CONFIG Site.world_down) as (_ & _ & Hroot & _).
  destruct (fetch_failure_is_not_fatal CONFIG Cases.world_choices) as (_ & _ & _ & Hother).
  assert (¬ (400 ≤ 300 < 600)%Z) as Hcode by lia.
  split_and!; [apply site_after_root_reachable | exact Hc | exact Hin | reflexivity
    | reflexivity | | reflexivity | exact Hmax | | reflexivity | exact Hcode
    | exact (Hother (BASE_URL CONFIG) 300%Z Cases.choices_html eq_refl Hcode)].
  - destruct (Hpass Site.after_root "https://enterawebsite.com/b"
                site_after_root_reachable Hc Hin eq_refl)
      as (st' & Hit & Hreach & Hvis & _).
    exists st'. split; [exact Hit|]. split; [exact Hreach | exact Hvis].
  - destruct (Hroot eq_refl 0 Site.empty_disk) as (st & Hmain & _ & Hfound & _ & Hv).
    destruct (Hv Hmax) as (Hvis & _).
    exists st. split; [exact Hmain|]. split; [exact Hfound | exact Hvis].
Defined.

Lemma crawl_terminates_witness :
  next CONFIG Site.world_ (initial CONFIG) Site.after_root
  ∧ (∃ o, crawl_loop CONFIG Site.world_ (S (Z.to_nat (MAX_PAGES CONFIG)) + 0) 0
            (initial CONFIG) = Some o)
  ∧ size (visited_pages Site.after_root) = S (size (visited_pages (initial CONFIG))).
Proof.
  destruct (crawl_terminates CONFIG Site.world_) as (Hfuel & Hprog & _).
  split; [apply site_first_step|]. split.
  - destruct (Hfuel 0) as (o & Ho & _). by exists o.
  - destruct (Hprog _ _ site_first_step) as [(url & _ & _ & Hsz & _)|(Hv & _)].
    + exact Hsz.
    + by vm_compute in Hv.
Defined.

Lemma existing_files_are_skipped_witness :
  download_all Site.world_ok Site.videos "videos" Site.empty_disk
  = (Site.full_disk, Ok tt)
  ∧ ∃ d2, download_all Site.world_down Site.videos "videos" Site.full_disk = (d2, Ok tt)
          ∧ transfers d2 = transfers Site.full_disk
          ∧ fs d2 = fs Site.full_disk.
Proof.
  assert (download_all Site.world_ok Site.videos "videos" Site.empty_disk
          = (Site.full_disk, Ok tt)) as Hrun by (vm_compute; reflexivity).
  split; [exact Hrun|].
  destruct (existing_files_are_skipped Site.world_ok "videos")
    as (_ & _ & _ & Hagain & _).
  exact (Hagain Site.videos Site.empty_disk Site.full_disk Site.world_down Hrun).
Defined.

Lemma downloads_in_sorted_order_witness :
  download_all Site.world_ok Site.videos "videos" Site.empty_disk
  = (Site.full_disk, Ok tt)
  ∧ ∃ called, processed Site.full_disk = (processed Site.empty_disk ++ called)%list
              ∧ called `prefix_of` sorted Site.videos
              ∧ (Ok tt = Ok tt → called = sorted Site.videos).
Proof.
  assert (download_all Site.world_ok Site.videos "videos" Site.empty_disk
          = (Site.full_disk, Ok tt)) as Hrun by (vm_compute; reflexivity).
  split; [exact Hrun|].
  destruct (downloads_in_sorted_order Site.world_ok Site.videos "videos"
              Site.empty_disk) as (_ & _ & _ & Hcalls).
  exact (Hcalls Site.full_disk (Ok tt) Hrun).
Defined.

Lemma download_error_aborts_the_rest_witness :
  download_file Site.world_ "https://enterawebsite.com/video/intro.mp4" "videos"
    Site.empty_disk
  = (mkDState ∅ ["https://enterawebsite.com/video/intro.mp4"]
       ["https://enterawebsite.com/video/intro.mp4"], Raise RequestException)
  ∧ download_each Site.world_
      ["https://enterawebsite.com/video/intro.mp4";
       "https://enterawebsite.com/video/zoo.mp4"] "videos" Site.empty_disk
    = (mkDState ∅ ["https://enterawebsite.com/video/intro.mp4"]
         ["https://enterawebsite.com/video/intro.mp4"], Raise RequestException).
Proof.
  assert (download_file Site.world_ "https://enterawebsite.com/video/intro.mp4"
            "videos" Site.empty_disk
          = (mkDState ∅ ["https://enterawebsite.com/video/intro.mp4"]
               ["https://enterawebsite.com/video/intro.mp4"], Raise RequestException))
    as Hd by (vm_compute; reflexivity).
  split; [exact Hd|].
  exact (proj1 download_error_aborts_the_rest Site.world_ _ _ _ _ _ _ Hd).
Defined.

(** * The extractors *)

Section ForEach.
Context {A : Type} (body : gset string → A → res (gset string)).
Context (target : A → res (option string)).
Hypothesis Hbody : ∀ acc x,
  body acc x = match target x with
               | Ok (Some u) => Ok (acc ∪ {[u]})
               | Ok None => Ok acc
               | Raise e => Raise e
               end.

(** A loop that adds the target of each item holds, at its end, what it
    started with and the targets. *)
Lemma for_each_elements l :
  ∀ acc acc', for_each body acc l = Ok acc' →
    ∀ u, u ∈ acc' ↔ u ∈ acc ∨ ∃ x, x ∈ l ∧ target x = Ok (Some u).
Proof.
  induction l as [|x l IH]; intros acc acc'; simpl.
  - intros [= <-] u. split; [by left|]. intros [?|(x & Hx & _)]; [done|].
    by apply elem_of_nil in Hx.
  - rewrite Hbody. destruct (target x) as [[v|]|e] eqn:Hx; simpl; [| |done].
    + intros Hrun u. rewrite (IH _ _ Hrun u). split.
      * intros [[Hu|Hu%elem_of_singleton]%elem_of_union|(y & Hy & Hty)].
        -- by left.
        -- subst u. right. exists x. split; [left|done].
        -- right. exists y. split; [by right|done].
      * intros [Hu|(y & Hy & Hty)].
        -- left. set_solver.
        -- apply elem_of_cons in Hy as [->|Hy].
           ++ left. rewrite Hx in Hty. injection Hty as ->. set_solver.
           ++ right. by exists y.
    + intros Hrun u. rewrite (IH _ _ Hrun u). split.
      * intros [Hu|(y & Hy & Hty)]; [by left|].
        right. exists y. split; [by right|done].
      * intros [Hu|(y & Hy & Hty)]; [by left|].
        apply elem_of_cons in Hy as [->|Hy]; [congruence|].
        right. by exists y.
Qed.

(** It returns when no item raises. *)
Lemma for_each_returns l :
  ∀ acc, (∀ x, x ∈ l → ∃ o, target x = Ok o) →
         ∃ acc', for_each body acc l = Ok acc'.
Proof.
  induction l as [|x l IH]; intros acc Hall; simpl; [by eexists|].
  rewrite Hbody. destruct (Hall x) as [o ->]; [left|].
  destruct o as [v|]; simpl; apply IH; intros y Hy; apply Hall; by right.
Qed.

(** It raises what the first raising item raises. *)
Lemma for_each_raises l1 x l2 e :
  ∀ acc, (∀ y, y ∈ l1 → ∃ o, target y = Ok o) →
         target x = Raise e →
         for_each body acc (l1 ++ x :: l2) = Raise e.
Proof.
  induction l1 as [|y l1 IH]; intros acc Hall Hx; simpl.
  - by rewrite Hbody, Hx.
  - rewrite Hbody. destruct (Hall y) as [o ->]; [left|].
    destruct o as [v|]; simpl; apply IH; try done; intros z Hz; apply Hall; by right.
Qed.

End ForEach.

Section Extractors.
Import PyStr UrlParse.
Context (cfg : config) (w : world).

(** Where an anchor leads: nowhere when its href, cut at the first [#],
    is not internal. *)
Lemma gather_anchor_target base urls a :
  gather_anchor cfg base urls a
  = match (internal ← is_internal_link cfg (Some (partition "#" a).1);
           if internal : bool
           then abs_url ← urljoin base (partition "#" a).1; Ok (Some abs_url)
           else Ok (@None string)) with
    | Ok (Some u) => Ok (urls ∪ {[u]})
    | Ok None => Ok urls
    | Raise e => Raise e
    end.
Proof.
  unfold gather_anchor. cbv zeta.
  destruct (is_internal_link cfg (Some (partition "#" a).1)) as [[]|e];
    [|done..].
  cbv beta iota delta [mbind res_bind].
  by destruct (urljoin base (partition "#" a).1).
Qed.

Lemma add_joined_target base urls raw :
  add_joined base urls raw
  = match (abs_url ← urljoin base raw; Ok (Some abs_url)) with
    | Ok (Some u) => Ok (urls ∪ {[u]})
    | Ok None => Ok urls
    | Raise e => Raise e
    end.
Proof. unfold add_joined. by destruct (urljoin base raw). Qed.

Lemma add_source_target base urls raw :
  add_source base urls raw
  = match (match raw with
           | Some r => if nonempty r
                       then abs_url ← urljoin base r; Ok (Some abs_url)
                       else Ok (@None string)
           | None => Ok (@None string)
           end) with
    | Ok (Some u) => Ok (urls ∪ {[u]})
    | Ok None => Ok urls
    | Raise e => Raise e
    end.
Proof.
  unfold add_source. destruct raw as [r|]; [|done].
  destruct (nonempty r); [|done]. apply add_joined_target.
Qed.

End Extractors.

(** X1: when [gather_page_urls] returns, its set holds exactly the URLs
    obtained from the anchors of the page whose href, cut at the first
    [#], the classifier accepts, each joined to the page URL; and it
    returns whenever the classifier and the join raise on no anchor. *)
Theorem gather_page_urls_elements (cfg : config) (w : world) (html base : string) :
  (∀ urls, gather_page_urls cfg w html base = Ok urls →
     ∀ u, u ∈ urls ↔
       ∃ a, a ∈ soup_anchor_hrefs w html
            ∧ is_internal_link cfg (Some (PyStr.partition "#" a).1) = Ok true
            ∧ UrlParse.urljoin base (PyStr.partition "#" a).1 = Ok u)
  ∧ ((∀ a, a ∈ soup_anchor_hrefs w html →
        ∃ b, is_internal_link cfg (Some (PyStr.partition "#" a).1) = Ok b
             ∧ (b = true → ∃ u, UrlParse.urljoin base (PyStr.partition "#" a).1 = Ok u)) →
     ∃ urls, gather_page_urls cfg w html base = Ok urls).
Proof.
  split.
  - intros urls Hrun u. unfold gather_page_urls in Hrun.
    rewrite (for_each_elements _ _ (gather_anchor_target cfg base) _ _ _ Hrun u).
    split.
    + intros [Hu|(a & Ha & Ht)]; [set_solver|]. exists a. split; [done|].
      destruct (is_internal_link cfg (Some (PyStr.partition "#" a).1))
        as [[]|e]; simpl in Ht; [|done..].
      destruct (UrlParse.urljoin base (PyStr.partition "#" a).1) as [v|e];
        simpl in Ht; [|done].
      by injection Ht as ->.
    + intros (a & Ha & Hint & Hj). right. exists a. split; [done|].
      rewrite Hint. simpl. by rewrite Hj.
  - intros Hall. unfold gather_page_urls.
    apply (for_each_returns _ _ (gather_anchor_target cfg base)).
    intros a Ha. destruct (Hall a Ha) as (b & -> & Hb). simpl.
    destruct b; [|by eexists]. destruct (Hb eq_refl) as [u ->]. by eexists.
Qed.

(** X3: when [find_video_urls] returns, its set holds exactly the URLs of
    the two passes: the [src] values that are not empty of the [source]
    elements under [video] elements, and the matches of the two patterns
    in the page text, each joined to the page URL. *)
Theorem find_video_urls_elements (w : world) (html base : string)
    (urls : gset string) :
  find_video_urls w html base = Ok urls →
  ∀ u, u ∈ urls ↔
    (∃ raw, Some raw ∈ soup_video_sources w html
            ∧ PyStr.nonempty raw = true
            ∧ UrlParse.urljoin base raw = Ok u)
    ∨ (∃ m, m ∈ pattern_pass html ∧ UrlParse.urljoin base m = Ok u).
Proof.
  unfold find_video_urls. intros Hrun u.
  destruct (for_each (add_source base) ∅ (soup_video_sources w html))
    as [urls1|e] eqn:H1; [|done].
  cbv beta iota delta [mbind res_bind] in Hrun.
  rewrite (for_each_elements _ _ (add_joined_target base) _ _ _ Hrun u).
  rewrite (for_each_elements _ _ (add_source_target base) _ _ _ H1 u).
  split.
  - intros [[Hu|(raw & Hraw & Ht)]|(m & Hm & Ht)].
    + set_solver.
    + left. destruct raw as [r|]; [|done]. exists r.
      destruct (PyStr.nonempty r); [|done].
      destruct (UrlParse.urljoin base r) as [v|]; [|done].
      simpl in Ht. injection Ht as ->. done.
    + right. exists m. split; [done|].
      destruct (UrlParse.urljoin base m) as [v|]; [|done].
      simpl in Ht. by injection Ht as ->.
  - intros [(raw & Hraw & Hne & Hj)|(m & Hm & Hj)].
    + left. right. exists (Some raw). split; [done|]. rewrite Hne.
      by rewrite Hj.
    + right. exists m. split; [done|]. by rewrite Hj.
Qed.

(** * The shape of what the patterns capture *)

Section CaptureShape.
Import PyStr Re Patterns.

(** A repetition that succeeds has consumed a run of selected characters
    that is not empty. *)
Lemma plus_some {A} (g : bool) (p : ascii → bool) (k : string → option A) s :
  ∀ r, plus g p s k = Some r →
       ∃ x t, s = x +:+ t ∧ x ≠ EmptyString ∧ all p x = true ∧ k t = Some r.
Proof.
  induction s as [|c s IH]; intros r; [done|]. cbn [plus].
  destruct (p c) eqn:Hc; [|done].
  assert (k s = Some r →
          ∃ x t, String c s = x +:+ t ∧ x ≠ EmptyString ∧ all p x = true
                 ∧ k t = Some r) as Hshort.
  { intros Hk. exists (String c EmptyString), s. cbn [all]. rewrite Hc.
    by split_and!. }
  assert (plus g p s k = Some r →
          ∃ x t, String c s = x +:+ t ∧ x ≠ EmptyString ∧ all p x = true
                 ∧ k t = Some r) as Hlong.
  { intros (x & t & -> & Hne & Hall & Hk)%IH.
    exists (String c x), t. cbn [all]. rewrite Hc, Hall. by split_and!. }
  destruct g.
  - destruct (plus true p s k) as [a|] eqn:Hp.
    + intros [= <-]. by apply Hlong.
    + apply Hshort.
  - destruct (k s) as [a|] eqn:Hk.
    + intros [= <-]. by apply Hshort.
    + apply Hlong.
Qed.

(** A match of the pattern for [attr] stands on the attribute name, the
    equals sign, a quote, [/video/], a stem free of quotes that is not
    empty, a dot and one of the two extensions; group 1 is the path. *)
Lemma match_video_attr_shape attr s cap rem :
  match_at (video_attr attr) s = Some (cap, rem) →
  ∃ q stem ext,
    is_quote q = true
    ∧ stem ≠ EmptyString
    ∧ all (λ c, negb (is_quote c)) stem = true
    ∧ (ext = "mp4" ∨ ext = "webm")
    ∧ cap = "/video/" +:+ stem +:+ "." +:+ ext
    ∧ s = attr +:+ "=" +:+ String q (cap +:+ rem).
Proof.
  unfold match_at, video_attr, video_path. cbn [run].
  destruct (strip_prefix (attr +:+ "=") s) as [s1|] eqn:H1; [|done].
  apply strip_prefix_spec in H1 as ->.
  destruct s1 as [|q s2]; [done|].
  destruct (in_set false quotes q) eqn:Hq; [|done].
  destruct (strip_prefix "/video/" s2) as [s3|] eqn:H3; [|done].
  apply strip_prefix_spec in H3 as ->.
  intros (x & t & -> & Hne & Hall & Hk)%plus_some.
  apply (extension_cont EmptyString t
           (λ _ s', Some (take (String.length ("/video/" +:+ x +:+ t)
                                - String.length s') ("/video/" +:+ x +:+ t), s')))
    in Hk as (ext & s4 & Hext & -> & HK).
  injection HK as Hcap <-.
  assert (cap = "/video/" +:+ x +:+ "." +:+ ext) as ->.
  { rewrite <- Hcap.
    etransitivity; [|apply (str_take_app ("/video/" +:+ x +:+ "." +:+ ext) s4)].
    by rewrite !str_app_assoc. }
  exists q, x, ext. split_and!; [exact Hq | done | exact Hall | done | done |].
  by rewrite !str_app_assoc.
Qed.

(** Every item of [findall] is group 1 of a match somewhere in the text. *)
Lemma findall_from_elements r s :
  ∀ n m, m ∈ findall_from r n s →
         ∃ pre s' rem, s = pre +:+ s' ∧ match_at r s' = Some (m, rem).
Proof.
  induction s as [|c s IH]; intros n m; cbn [findall_from].
  - destruct n; [|by intros ?%elem_of_nil].
    destruct (match_at r EmptyString) as [[cap rem]|] eqn:Hm;
      [|by intros ?%elem_of_nil].
    intros ->%list_elem_of_singleton. by exists EmptyString, EmptyString, rem.
  - assert (∀ k, m ∈ findall_from r k s →
                 ∃ pre s' rem, String c s = pre +:+ s'
                               ∧ match_at r s' = Some (m, rem)) as Htail.
    { intros k (pre & s' & rem & -> & Hm)%IH.
      by exists (String c pre), s', rem. }
    destruct n; [|apply Htail].
    destruct (match_at r (String c s)) as [[cap rem]|] eqn:Hm; [|apply Htail].
    intros [->|Hin]%elem_of_cons; [|by eapply Htail].
    by exists EmptyString, (String c s), rem.
Qed.

End CaptureShape.

(** X4: every path the pattern pass reports is [/video/], a stem free of
    quote characters that is not empty, a dot and [mp4] or [webm] in lower
    case, and stands in the page text right after [src=] or [href=] and a
    quote character of either kind. *)
Theorem pattern_pass_shape (html m : string) :
  m ∈ pattern_pass html →
  ∃ attr q stem ext pre rem,
    (attr = "src" ∨ attr = "href")
    ∧ Patterns.is_quote q = true
    ∧ stem ≠ EmptyString
    ∧ PyStr.all (λ c, negb (Patterns.is_quote c)) stem = true
    ∧ (ext = "mp4" ∨ ext = "webm")
    ∧ m = "/video/" +:+ stem +:+ "." +:+ ext
    ∧ html = pre +:+ attr +:+ "=" +:+ String q (m +:+ rem).
Proof.
  unfold pattern_pass, Re.findall.
  intros [Hin|Hin]%elem_of_app;
    apply findall_from_elements in Hin as (pre & s' & rem & -> & Hm);
    apply match_video_attr_shape
      in Hm as (q & stem & ext & Hq & Hne & Hall & Hext & Hcap & ->).
  - exists "src", q, stem, ext, pre, rem. split_and!; auto.
  - exists "href", q, stem, ext, pre, rem. split_and!; auto.
Qed.


(** * The scan over the whole page *)

Section Scan.
Import PyStr Re Patterns.

(** Two ways of cutting one text in two differ by a middle piece. *)
Lemma str_app_eq_app (a b c d : string) :
  a +:+ b = c +:+ d →
  (∃ z, c = a +:+ z ∧ b = z +:+ d) ∨ (∃ z, a = c +:+ z ∧ d = z +:+ b).
Proof.
  revert c. induction a as [|x a IH]; intros c Heq.
  - left. exists c. by rewrite !str_app_nil_l in *.
  - destruct c as [|y c].
    + right. exists (String x a). by rewrite !str_app_nil_l in *.
    + rewrite !str_app_cons in Heq. injection Heq as <- Heq.
      destruct (IH c Heq) as [(z & -> & ->)|(z & -> & ->)].
      * left. by exists z.
      * right. by exists z.
Qed.

Lemma str_app_nil_inv (a b : string) : a +:+ b = EmptyString → a = EmptyString ∧ b = EmptyString.
Proof. destruct a; [by rewrite str_app_nil_l|done]. Qed.

(** The text of a match of the pattern is free of quotes after its
    opening quote, and ends with [4] or [m]. *)
Lemma video_path_no_quote stem ext :
  all (λ c, negb (is_quote c)) stem = true →
  ext = "mp4" ∨ ext = "webm" →
  all (λ c, negb (is_quote c)) ("/video/" +:+ stem +:+ "." +:+ ext) = true.
Proof.
  intros Hstem Hext. rewrite !str_all_app, Hstem.
  by destruct Hext as [-> | ->].
Qed.

Lemma video_path_end stem ext :
  ext = "mp4" ∨ ext = "webm" →
  ∃ m0 e, "/video/" +:+ stem +:+ "." +:+ ext = m0 +:+ String e EmptyString
          ∧ not_end e = false.
Proof.
  intros [-> | ->].
  - exists ("/video/" +:+ stem +:+ ".mp"), "4"%char. split; [|done].
    by rewrite !str_app_assoc.
  - exists ("/video/" +:+ stem +:+ ".web"), "m"%char. split; [|done].
    by rewrite !str_app_assoc.
Qed.

(** A text that ends with [e] has no suffix free of [e], but the empty
    one. *)
Lemma suffix_end (p : ascii → bool) pre z m0 e :
  pre +:+ z = m0 +:+ String e EmptyString →
  z ≠ EmptyString → p e = false → all p z = false.
Proof.
  intros Heq Hz He.
  assert (∃ x, z = x +:+ String e EmptyString) as [x ->].
  { destruct (str_app_eq_app _ _ _ _ Heq) as [(x & Hm & Hzz)|(x & Hp & He')].
    - by exists x.
    - destruct x as [|c x].
      + exists EmptyString. by rewrite str_app_nil_l in He'.
      + rewrite str_app_cons in He'. injection He' as _ He'.
        symmetry in He'. by apply str_app_nil_inv in He' as [_ ?]. }
  rewrite str_all_app. cbn [all]. rewrite He. by rewrite andb_false_r.
Qed.

Lemma all_prefix (p : ascii → bool) a z y : a = z +:+ y → all p a = true → all p z = true.
Proof. intros ->. rewrite str_all_app. by intros [? _]%andb_prop. Qed.

(** A match that starts before an attribute of the same name does not
    reach into it: it ends before the attribute starts. *)
Lemma match_before_attribute attr q pre v cap rem :
  attr = "src" ∨ attr = "href" →
  is_quote q = true →
  pre ≠ EmptyString →
  match_at (video_attr attr) (pre +:+ attr +:+ "=" +:+ String q v) = Some (cap, rem) →
  ∃ z, rem = z +:+ attr +:+ "=" +:+ String q v
       ∧ String.length (pre +:+ attr +:+ "=" +:+ String q v) - String.length rem
         ≤ String.length pre.
Proof.
  intros Hattr Hq Hpre Hm.
  apply match_video_attr_shape
    in Hm as (q1 & stem & ext & Hq1 & Hne & Hstem & Hext & Hcap & Hs).
  assert (all (λ c, negb (is_quote c)) (attr +:+ "=") = true) as HAq
    by (by destruct Hattr as [-> | ->]).
  assert (all not_end (attr +:+ "=") = true) as HAe by (by destruct Hattr as [-> | ->]).
  assert (all (λ c, negb (is_quote c)) cap = true) as Hcapq
    by (subst cap; by apply video_path_no_quote).
  destruct (video_path_end stem ext Hext) as (m0 & e & Hend & He).
  rewrite <- Hcap in Hend. clear Hcap Hstem Hne Hext stem ext.
  rewrite <- (str_app_assoc attr "=" (String q v)) in Hs |- *.
  rewrite <- (str_app_assoc attr "=" (String q1 (cap +:+ rem))) in Hs.
  generalize dependent (attr +:+ "="). intros A Hs HAq HAe. clear Hattr attr.
  set (T := A +:+ String q v) in *.
  set (M := A +:+ String q1 cap).
  assert (M +:+ rem = pre +:+ T) as Heq.
  { unfold M. rewrite Hs. by rewrite str_app_assoc, str_app_cons. }
  assert (∃ z, pre = M +:+ z ∧ rem = z +:+ T) as (z & Hz & ->).
  { destruct (str_app_eq_app _ _ _ _ Heq) as [(z & Hz1 & Hz2)|(z & HM & HT)];
      [by exists z|].
    destruct z as [|c0 z0].
    { exists EmptyString. rewrite str_app_nil_r in HM. rewrite str_app_nil_l in *.
      by rewrite str_app_nil_r. }
    exfalso.
    assert (M = (A +:+ String q1 m0) +:+ String e EmptyString) as HMend.
    { unfold M. rewrite Hend. by rewrite !str_app_assoc, !str_app_cons. }
    assert (all not_end (String c0 z0) = false) as Hzend.
    { eapply (suffix_end not_end pre); [by rewrite <- HM, HMend|done|done]. }
    unfold T in HT.
    destruct (str_app_eq_app _ _ _ _ HT) as [(y & Hzy & Hy)|(y & HA & Hy)].
    - (* the attribute name and its quote lie within the match *)
      destruct y as [|c1 y].
      + rewrite str_app_nil_r in Hzy. rewrite Hzy in Hzend. congruence.
      + rewrite str_app_cons in Hy. injection Hy as <- Hy.
        rewrite Hzy in HM. unfold M in HM.
        rewrite <- str_app_assoc in HM.
        destruct (str_app_eq_app _ _ _ _ HM) as [(x & Hx1 & Hx2)|(x & Hx1 & Hx2)].
        * destruct x as [|c2 x].
          -- rewrite str_app_nil_r in Hx1.
             apply (f_equal String.length) in Hx1. rewrite str_length_app in Hx1.
             destruct pre; [done|]. simpl in Hx1. lia.
          -- rewrite str_app_cons in Hx2. injection Hx2 as <- Hx2.
             rewrite Hx2, str_all_app in Hcapq.
             apply andb_prop in Hcapq as [_ Hcapq]. cbn [all] in Hcapq.
             by rewrite Hq in Hcapq.
        * apply (f_equal String.length) in Hx1. rewrite !str_length_app in Hx1.
          destruct pre; [done|]. simpl in Hx1. lia.
    - (* the match ends within the attribute name *)
      rewrite (all_prefix not_end A (String c0 z0) y HA HAe) in Hzend. congruence. }
  exists z. split; [done|].
  rewrite Hz. rewrite !str_length_app. lia.
Qed.

(** Whatever stands before an attribute, the scan arrives at its first
    character with no match under way, and goes on as on the text from
    there. *)
Lemma findall_reaches_attribute attr q v :
  attr = "src" ∨ attr = "href" →
  is_quote q = true →
  ∀ pre n, n ≤ String.length pre →
    ∃ before,
      findall_from (video_attr attr) n (pre +:+ attr +:+ "=" +:+ String q v)
      = (before ++ findall (video_attr attr) (attr +:+ "=" +:+ String q v))%list.
Proof.
  intros Hattr Hq. induction pre as [|c pre IH]; intros n Hn.
  - simpl in Hn. assert (n = 0) as -> by lia. exists []. by rewrite str_app_nil_l.
  - rewrite str_app_cons. destruct n as [|n]; cbn [findall_from].
    + destruct (match_at (video_attr attr) (String c (pre +:+ attr +:+ "=" +:+ String q v)))
        as [[cap rem]|] eqn:Hm.
      * rewrite <- str_app_cons in Hm.
        destruct (match_before_attribute attr q (String c pre) v cap rem Hattr Hq)
          as (z & Hz & Hlen); [done|exact Hm|].
        rewrite str_app_cons in Hlen.
        destruct (IH (String.length (String c (pre +:+ attr +:+ "=" +:+ String q v))
                      - String.length rem - 1)) as [before Hb].
        { simpl in Hlen |- *. lia. }
        exists (cap :: before). by rewrite Hb.
      * apply IH. lia.
    + apply IH. simpl in Hn. lia.
Qed.

End Scan.

(** C3 (counterexample): on the tag [src=Q/video/a.mp4x.mp4Q] the scan of
    the program captures the whole path [/video/a.mp4x.mp4], not the
    shortest match [/video/a.mp4]; the pattern with a lazy repetition is
    the one that captures [/video/a.mp4]. *)
Lemma mp4x_capture_is_not_shortest :
  pattern_pass Patterns.mp4x_tag = ["/video/a.mp4x.mp4"]
  ∧ pattern_pass Patterns.mp4x_tag ≠ ["/video/a.mp4"]
  ∧ Re.findall (Patterns.video_attr_lazy "src") Patterns.mp4x_tag = ["/video/a.mp4"].
Proof. split_and!; [vm_compute; reflexivity | vm_compute; discriminate | vm_compute; reflexivity]. Qed.

(** C3 (amended): at an attribute [attr=] with an opening quote of either
    kind and a value that starts with [/video/] and is free of quote
    characters up to the closing quote or the end of the text, the pattern
    of the program captures [/video/] followed by the longest video name
    (a stem that is not empty, a dot, [mp4] or [webm], case-sensitive) that
    the rest of the value starts with, and nothing when there is none; in
    particular a value that ends in such a name is captured whole.
    [re.findall] reports that capture and goes on after it.  For [src] and
    [href] this holds wherever the attribute stands in the page text:
    whatever precedes it, the scan reaches the attribute, the pattern pass
    reports the capture, and the scan goes on after it; where the value
    starts with no video name, the scan goes on from the second character
    of the attribute. *)
Theorem pattern_capture_is_greedy (attr : string) (q : ascii) (body rest : string) :
  Patterns.is_quote q = true →
  PyStr.all (λ c, negb (Patterns.is_quote c)) body = true →
  Patterns.quote_or_end rest →
  (∀ cap rem,
     Re.match_at (Patterns.video_attr attr) (Patterns.tag_text attr q body rest)
     = Some (cap, rem)
     ↔ ∃ p t, body = p +:+ t ∧ Patterns.video_name p
              ∧ cap = "/video/" +:+ p ∧ rem = t +:+ rest
              ∧ ∀ p2 t2, body = p2 +:+ t2 → Patterns.video_name p2 →
                  String.length p2 ≤ String.length p)
  ∧ (Patterns.video_name body →
     Re.match_at (Patterns.video_attr attr) (Patterns.tag_text attr q body rest)
     = Some ("/video/" +:+ body, rest))
  ∧ (∀ cap rem,
       Re.match_at (Patterns.video_attr attr) (Patterns.tag_text attr q body rest)
       = Some (cap, rem) →
       Re.findall (Patterns.video_attr attr) (Patterns.tag_text attr q body rest)
       = cap :: Re.findall (Patterns.video_attr attr) rem)
  ∧ (attr = "src" ∨ attr = "href" →
     ∀ pre,
       (∀ p t,
          body = p +:+ t → Patterns.video_name p →
          (∀ p2 t2, body = p2 +:+ t2 → Patterns.video_name p2 →
             String.length p2 ≤ String.length p) →
          (∃ before,
             Re.findall (Patterns.video_attr attr)
               (pre +:+ Patterns.tag_text attr q body rest)
             = (before ++ ("/video/" +:+ p)
                  :: Re.findall (Patterns.video_attr attr) (t +:+ rest))%list)
          ∧ "/video/" +:+ p ∈ pattern_pass (pre +:+ Patterns.tag_text attr q body rest))
       ∧ (Patterns.video_name body →
          "/video/" +:+ body ∈ pattern_pass (pre +:+ Patterns.tag_text attr q body rest))
       ∧ ((∀ p t, body = p +:+ t → ¬ Patterns.video_name p) →
          ∃ before,
            Re.findall (Patterns.video_attr attr)
              (pre +:+ Patterns.tag_text attr q body rest)
            = (before ++ Re.findall (Patterns.video_attr attr)
                           (PyStr.drop 1 (Patterns.tag_text attr q body rest)))%list)).
Proof.
  intros Hq Hbody Hrest.
  assert (∀ cap rem,
            Re.match_at (Patterns.video_attr attr) (Patterns.tag_text attr q body rest)
            = Some (cap, rem)
            ↔ ∃ p t, body = p +:+ t ∧ Patterns.video_name p
                     ∧ cap = "/video/" +:+ p ∧ rem = t +:+ rest
                     ∧ ∀ p2 t2, body = p2 +:+ t2 → Patterns.video_name p2 →
                         String.length p2 ≤ String.length p) as Hiff.
  { intros cap rem. split.
    - by apply match_video_attr_some.
    - intros (p & t & Hsplit & Hname & -> & -> & Hmax).
      destruct (match_video_attr_complete attr q body rest Hq Hbody Hrest p t
                  Hsplit Hname) as [[cap rem] Hm].
      rewrite Hm.
      apply (match_video_attr_some attr q body rest Hq Hbody Hrest) in Hm
        as (p' & t' & Hsplit' & Hname' & -> & -> & Hmax').
      pose proof (Hmax p' t' Hsplit' Hname').
      pose proof (Hmax' p t Hsplit Hname).
      rewrite Hsplit in Hsplit'.
      apply str_app_inj_length in Hsplit' as [-> ->]; [done|lia]. }
  assert (∀ cap rem,
            Re.match_at (Patterns.video_attr attr) (Patterns.tag_text attr q body rest)
            = Some (cap, rem) →
            Re.findall (Patterns.video_attr attr) (Patterns.tag_text attr q body rest)
            = cap :: Re.findall (Patterns.video_attr attr) rem) as Hfind.
  { intros cap rem Hm. pose proof Hm as Hm'.
    apply Hiff in Hm' as (p & t & Hsplit & _ & _ & Hrem & _).
    assert (Patterns.tag_text attr q body rest
            = (attr +:+ "=" +:+ String q ("/video/" +:+ p)) +:+ rem) as Htext.
    { unfold Patterns.tag_text. rewrite Hsplit, Hrem.
      repeat (rewrite str_app_assoc || rewrite str_app_cons). reflexivity. }
    rewrite Htext in Hm |- *. apply findall_match; [|exact Hm].
    destruct attr; done. }
  assert (Patterns.video_name body →
          ∀ p2 t2, body = p2 +:+ t2 → Patterns.video_name p2 →
                   String.length p2 ≤ String.length body) as Hwhole.
  { intros _ p2 t2 -> _. rewrite str_length_app. lia. }
  split; [exact Hiff|]. split; [|split; [exact Hfind|]].
  - intros Hname. apply Hiff. exists body, EmptyString.
    rewrite str_app_nil_r. split_and!; [done..|]. by apply Hwhole.
  - intros Hattr pre.
    destruct (findall_reaches_attribute attr q ("/video/" +:+ body +:+ rest)
                Hattr Hq pre 0) as [before Hb]; [lia|].
    fold (Patterns.tag_text attr q body rest) in Hb.
    fold (Re.findall (Patterns.video_attr attr)
            (pre +:+ Patterns.tag_text attr q body rest)) in Hb.
    assert (∀ p t,
              body = p +:+ t → Patterns.video_name p →
              (∀ p2 t2, body = p2 +:+ t2 → Patterns.video_name p2 →
                 String.length p2 ≤ String.length p) →
              (∃ before,
                 Re.findall (Patterns.video_attr attr)
                   (pre +:+ Patterns.tag_text attr q body rest)
                 = (before ++ ("/video/" +:+ p)
                      :: Re.findall (Patterns.video_attr attr) (t +:+ rest))%list)
              ∧ "/video/" +:+ p
                ∈ pattern_pass (pre +:+ Patterns.tag_text attr q body rest)) as Hcap.
    { intros p t Hsplit Hname Hmax.
      assert (Re.match_at (Patterns.video_attr attr) (Patterns.tag_text attr q body rest)
              = Some ("/video/" +:+ p, t +:+ rest)) as Hm.
      { apply Hiff. by exists p, t. }
      rewrite (Hfind _ _ Hm) in Hb. split; [by exists before|].
      unfold pattern_pass. apply elem_of_app.
      destruct Hattr as [-> | ->]; [left|right]; rewrite Hb;
        apply elem_of_app; right; by left. }
    split; [exact Hcap|]. split.
    + intros Hname.
      destruct (Hcap body EmptyString) as [_ Hin];
        [by rewrite str_app_nil_r | done | by apply Hwhole | exact Hin].
    + intros Hnone. exists before. rewrite Hb. f_equal.
      destruct (Re.match_at (Patterns.video_attr attr)
                  (Patterns.tag_text attr q body rest)) as [[cap rem]|] eqn:Hm.
      * apply (match_video_attr_some attr q body rest Hq Hbody Hrest)
          in Hm as (p & t & Hsplit & Hname & _).
        by destruct (Hnone p t).
      * assert (∃ c s, Patterns.tag_text attr q body rest = String c s) as (c & s & Ht).
        { destruct Hattr as [-> | ->]; by eexists _, _. }
        rewrite Ht in Hm |- *. by apply findall_no_match.
Qed.

(** * More on the link classifier *)

Section ClassifierMore.
Import PyStr UrlParse.

(** Cutting at the first [#] gives back a text that has none, and drops
    everything from the first [#] on. *)
Lemma partition_without c h :
  contains c h = false → partition c h = (h, None).
Proof.
  induction h as [|d h IH]; [done|]. cbn [contains partition].
  destruct (Ascii.eqb c d); [done|]. intros Hh. by rewrite IH.
Qed.

Lemma partition_app c h f :
  contains c h = false → partition c (h +:+ String c f) = (h, Some f).
Proof.
  induction h as [|d h IH].
  - intros _. rewrite str_app_nil_l. cbn [partition]. by rewrite Ascii.eqb_refl.
  - cbn [contains]. rewrite str_app_cons. cbn [partition].
    destruct (Ascii.eqb c d); [done|]. intros Hh. by rewrite IH.
Qed.

Lemma split_off_slash c r :
  Ascii.eqb c "/" = false →
  ∃ r', (split_off c (String "/" r)).1 = String "/" r'.
Proof.
  intros Hc. unfold split_off. cbn [partition]. rewrite Hc.
  destruct (partition c r) as [pre [post|]]; by eexists.
Qed.

Lemma splitparams_slash r : ∃ r', (_splitparams (String "/" r)).1 = String "/" r'.
Proof.
  unfold _splitparams. cbn [rbreak].
  destruct (rbreak "/" r) as [[dir last]|].
  - destruct (partition ";" last) as [pre [post|]]; by eexists.
  - change (Ascii.eqb "/" "/") with true. cbv iota. cbn [partition].
    change (Ascii.eqb ";" "/") with false. cbv iota.
    destruct (partition ";" r) as [pre [post|]]; by eexists.
Qed.

(** The default scheme plays no part when the URL has its own. *)
Lemma urlsplit_site_root_any host rest default :
  all host_char host = true →
  urlsplit ("https://" +:+ host +:+ String "/" rest) default
  = urlsplit ("https://" +:+ host +:+ String "/" rest) EmptyString.
Proof.
  intros Hh. unfold urlsplit. rewrite clean_url_root by done.
  by change (split_scheme ("https://" +:+ ?X) ?d) with ("https", "//" +:+ X).
Qed.

(** An absolute URL on a plain host parses with that host and a path
    that starts with a slash. *)
Lemma urlparse_site_root_path host rest default :
  all host_char host = true →
  ∃ r params query fragment,
    urlparse ("https://" +:+ host +:+ String "/" rest) default
    = Ok (mkParse "https" host (String "/" r) params query fragment).
Proof.
  intros Hh. unfold urlparse.
  rewrite urlsplit_site_root_any, urlsplit_site_root by done.
  cbv beta iota zeta delta [mbind res_bind s_scheme s_netloc s_path s_query s_fragment].
  destruct (split_off_slash "#" (remove unsafe_url_byte rest) eq_refl) as [r1 H1].
  remember (split_off "#" (String "/" (remove unsafe_url_byte rest))) as sf.
  rewrite H1.
  destruct (split_off_slash "?" r1 eq_refl) as [r2 H2].
  remember (split_off "?" (String "/" r1)) as sq. rewrite H2.
  destruct (_ && _).
  - destruct (splitparams_slash r2) as [r3 H3].
    destruct (_splitparams (String "/" r2)) as [pa pr]. simpl in H3. subst pa.
    by eexists _, _, _, _.
  - by eexists _, _, _, _.
Qed.

(** Joining an absolute URL on a plain host to the root gives a URL on
    that host. *)
Lemma urljoin_root_absolute host h2 rest :
  plain_host host = true → plain_host h2 = true →
  ∃ rest', urljoin (site_root host) ("https://" +:+ h2 +:+ String "/" rest)
           = Ok ("https://" +:+ h2 +:+ String "/" rest').
Proof.
  intros [Hne Hh]%andb_prop [Hne2 Hh2]%andb_prop. unfold urljoin.
  rewrite nonempty_root.
  change (nonempty ("https://" +:+ h2 +:+ String "/" rest)) with true.
  cbv beta iota delta [negb].
  rewrite urlparse_root by done.
  cbv beta iota zeta delta [mbind res_bind scheme].
  destruct (urlparse_site_root_path h2 rest "https" Hh2) as (r & pa & qu & fr & ->).
  cbv beta iota zeta delta [scheme netloc path params query fragment].
  change (negb (String.eqb "https" "https") || negb (mem "https" uses_relative))
    with false.
  change (mem "https" uses_netloc) with true.
  rewrite Hne2. cbv beta iota delta [andb].
  unfold urlunparse, urlunsplit. rewrite Hne2.
  destruct pa as [|c1 pa], qu as [|c2 qu], fr as [|c3 fr];
    eexists; cbv -[String.append];
    repeat (rewrite str_app_assoc || rewrite str_app_cons || rewrite str_app_nil_l);
    reflexivity.
Qed.

End ClassifierMore.

Section RootMore.
Import PyStr UrlParse.

(** Only [ValueError] comes out of the URL functions. *)
Lemma check_bracketed_host_raises h e : _check_bracketed_host h = Raise e → e = ValueError.
Proof.
  unfold _check_bracketed_host, IpAddress.ip_address.
  destruct (startswith "v" h).
  - destruct (ipvfuture h); [done|]. by intros [= <-].
  - destruct (bool_decide _); [by intros [= <-]|].
    destruct (IpAddress.IPv6Address h); [done|]. by intros [= <-].
Qed.

Lemma take_netloc_raises url e : take_netloc url = Raise e → e = ValueError.
Proof.
  unfold take_netloc. destruct (startswith "//" url); [|done].
  destruct (_splitnetloc url) as [nl rest].
  unfold check_brackets.
  destruct (_ || _); [by intros [= <-]|].
  destruct (_ && _); [|done].
  unfold _check_bracketed_netloc.
  destruct (partition "[" (after_last "@" nl)) as [before [bracketed|]].
  - destruct (nonempty before); [by intros [= <-]|].
    destruct (partition "]" bracketed) as [hn [port|]].
    + destruct (_ && _); [by intros [= <-]|].
      destruct (_check_bracketed_host hn) eqn:H; [done|].
      intros [= <-]. by eapply check_bracketed_host_raises.
    + cbn [nonempty andb].
      destruct (_check_bracketed_host hn) eqn:H; [done|].
      intros [= <-]. by eapply check_bracketed_host_raises.
  - destruct (_check_bracketed_host _) eqn:H; [done|].
    intros [= <-]. by eapply check_bracketed_host_raises.
Qed.

Lemma urlsplit_raises url default e : urlsplit url default = Raise e → e = ValueError.
Proof.
  unfold urlsplit. destruct (split_scheme _ _) as [sch u].
  destruct (take_netloc u) as [[nl u']|e'] eqn:H.
  - cbv beta iota zeta delta [mbind res_bind].
    destruct (split_off "#" u') as [u1 f]. destruct (split_off "?" u1) as [u2 q].
    unfold _checknetloc. by destruct (_ || _).
  - intros [= <-]. by eapply take_netloc_raises.
Qed.

Lemma urlparse_raises url default e : urlparse url default = Raise e → e = ValueError.
Proof.
  unfold urlparse. destruct (urlsplit url default) as [sp|e'] eqn:H.
  - cbv beta iota zeta delta [mbind res_bind].
    destruct (_ && _); [destruct (_splitparams _)|]; done.
  - intros [= <-]. by eapply urlsplit_raises.
Qed.

Lemma urljoin_raises base url e : urljoin base url = Raise e → e = ValueError.
Proof.
  unfold urljoin. destruct (negb (nonempty base)); [done|].
  destruct (negb (nonempty url)); [done|].
  destruct (urlparse base EmptyString) as [b|e1] eqn:Hb;
    [|intros [= <-]; by eapply urlparse_raises].
  cbv beta iota zeta delta [mbind res_bind].
  destruct (urlparse url (scheme b)) as [u|e1] eqn:Hu;
    [|intros [= <-]; by eapply urlparse_raises].
  destruct (_ || _); [done|]. destruct (_ && _); [done|].
  by destruct (_ && _).
Qed.

(** Putting a URL together on a host gives a URL under that host. *)
Lemma urlunparse_host host p pa q f :
  nonempty host = true → nonempty p = true →
  ∃ rest, urlunparse "https" host p pa q f = "https://" +:+ host +:+ String "/" rest.
Proof.
  intros Hh Hp. unfold urlunparse, urlunsplit.
  destruct p as [|c p]; [done|].
  assert (∀ X : string, ∃ rest,
            (if nonempty (String c X) && negb (startswith "/" (String c X))
             then "/" +:+ String c X else String c X) = String "/" rest) as Hslash.
  { intros X. unfold startswith. cbn [strip_prefix nonempty andb].
    destruct (Ascii.eqb_spec "/" c) as [<-|Hc]; by eexists. }
  rewrite Hh. cbv beta iota zeta delta [orb].
  assert (∃ rest, (if nonempty pa then String c p +:+ ";" +:+ pa else String c p)
                  = String c rest) as [r0 ->].
  { destruct (nonempty pa); by eexists. }
  destruct (Hslash r0) as [r1 ->].
  change (nonempty "https") with true. cbv iota.
  destruct (nonempty q), (nonempty f); eexists;
    repeat (rewrite str_app_assoc || rewrite str_app_cons || rewrite str_app_nil_l);
    reflexivity.
Qed.

(** A reference that names no scheme and no network location of its own
    joins to a URL under the root. *)
Lemma urljoin_root_local host href u :
  plain_host host = true →
  nonempty href = true →
  urlparse href "https" = Ok u →
  scheme u = "https" → netloc u = EmptyString →
  ∃ rest, urljoin (site_root host) href = Ok ("https://" +:+ host +:+ String "/" rest).
Proof.
  intros [Hne Hh]%andb_prop Hhref Hu Hs Hn. unfold urljoin.
  rewrite nonempty_root, Hhref. change (negb true) with false. cbv iota.
  rewrite urlparse_root by done.
  cbv beta iota zeta delta [mbind res_bind]. cbn [scheme].
  rewrite Hu. cbv beta iota zeta. rewrite Hs, Hn.
  change (negb (String.eqb "https" "https") || negb (mem "https" uses_relative))
    with false.
  change (mem "https" uses_netloc && nonempty "") with false.
  change (mem "https" uses_netloc) with true.
  cbn [netloc path params query fragment]. cbv beta iota zeta.
  destruct (_ && _).
  - destruct (urlunparse_host host "/" "" 
               (if negb (nonempty (query u)) then "" else query u) (fragment u) Hne eq_refl)
      as [rest Hr].
    exists rest. f_equal. exact Hr.
  - match goal with
    | |- ∃ rest, Ok (urlunparse _ _ ?P ?pa ?q ?f) = _ =>
        destruct (urlunparse_host host P pa q f Hne) as [rest Hr];
          [by match goal with |- nonempty (if nonempty ?j then _ else _) = true =>
                destruct j end|]
    end.
    exists rest. f_equal. exact Hr.
Qed.

(** A reference that starts with one slash names no network location. *)
Lemma urlparse_single_slash rest default :
  startswith "/" (remove unsafe_url_byte rest) = false →
  ∃ u, urlparse (String "/" rest) default = Ok u
       ∧ scheme u = clean_scheme default ∧ netloc u = EmptyString.
Proof.
  intros Hrest. unfold urlparse, urlsplit.
  change (clean_url (String "/" rest)) with (String "/" (remove unsafe_url_byte rest)).
  assert (split_scheme (String "/" (remove unsafe_url_byte rest)) (clean_scheme default)
          = (clean_scheme default, String "/" (remove unsafe_url_byte rest))) as ->.
  { unfold split_scheme. cbn [partition].
    change (Ascii.eqb ":" "/") with false. cbv iota.
    by destruct (partition ":" (remove unsafe_url_byte rest)) as [pre [post|]]. }
  cbv beta iota.
  assert (take_netloc (String "/" (remove unsafe_url_byte rest))
          = Ok (EmptyString, String "/" (remove unsafe_url_byte rest))) as ->.
  { unfold take_netloc, startswith in *. cbn [strip_prefix].
    change (Ascii.eqb "/" "/") with true. cbv iota.
    destruct (remove unsafe_url_byte rest) as [|c r]; [done|].
    cbn [strip_prefix] in *. by destruct (Ascii.eqb "/" c). }
  cbv beta iota zeta delta [mbind res_bind].
  destruct (split_off "#" _) as [u1 f]. destruct (split_off "?" u1) as [u2 q].
  change (_checknetloc "") with (Ok tt : res unit). cbv beta iota.
  cbv beta iota zeta delta [s_scheme s_netloc s_path s_query s_fragment].
  destruct (_ && _); [destruct (_splitparams _)|]; eexists; split_and!; reflexivity.
Qed.

(** A protocol-relative reference to a plain host names that host. *)
Lemma urlparse_protocol_relative h2 rest :
  all host_char h2 = true →
  ∃ u, urlparse ("//" +:+ h2 +:+ String "/" rest) "https" = Ok u
       ∧ scheme u = "https" ∧ netloc u = h2 ∧ nonempty (path u) = true.
Proof.
  intros Hh. unfold urlparse, urlsplit.
  assert (clean_url ("//" +:+ h2 +:+ String "/" rest)
          = "//" +:+ h2 +:+ String "/" (remove unsafe_url_byte rest)) as ->.
  { unfold clean_url.
    change (lstrip c0_control_or_space ("//" +:+ ?X)) with ("//" +:+ X).
    change (remove unsafe_url_byte ("//" +:+ ?X)) with ("//" +:+ remove unsafe_url_byte X).
    rewrite remove_app, remove_host by done. reflexivity. }
  change (clean_scheme "https") with "https".
  assert (∀ X, split_scheme ("//" +:+ X) "https" = ("https", "//" +:+ X)) as ->.
  { intros X. unfold split_scheme.
    change ("//" +:+ X) with (String "/" (String "/" X)). cbn [partition].
    change (Ascii.eqb ":" "/") with false. cbv iota.
    by destruct (partition ":" X) as [pre [post|]]. }
  cbv beta iota. rewrite take_netloc_root by done.
  cbv beta iota zeta delta [mbind res_bind].
  rewrite checknetloc_host by done.
  destruct (split_off_slash "#" (remove unsafe_url_byte rest) eq_refl) as [r1 H1].
  destruct (split_off "#" (String "/" (remove unsafe_url_byte rest))) as [u1 f].
  cbn [fst] in H1. subst u1.
  destruct (split_off_slash "?" r1 eq_refl) as [r2 H2].
  destruct (split_off "?" (String "/" r1)) as [u2 q]. cbn [fst] in H2. subst u2.
  cbv beta iota zeta delta [s_scheme s_netloc s_path s_query s_fragment].
  destruct (_ && _).
  - destruct (splitparams_slash r2) as [r3 H3].
    destruct (_splitparams (String "/" r2)) as [pa pr]. cbn [fst] in H3. subst pa.
    eexists; split_and!; reflexivity.
  - eexists; split_and!; reflexivity.
Qed.

Lemma urljoin_root_protocol_relative host h2 rest :
  plain_host host = true → plain_host h2 = true →
  ∃ rest', urljoin (site_root host) ("//" +:+ h2 +:+ String "/" rest)
           = Ok ("https://" +:+ h2 +:+ String "/" rest').
Proof.
  intros [Hne Hh]%andb_prop [Hne2 Hh2]%andb_prop. unfold urljoin.
  rewrite nonempty_root.
  change (nonempty ("//" +:+ h2 +:+ String "/" rest)) with true.
  change (negb true) with false. cbv iota.
  rewrite urlparse_root by done.
  cbv beta iota zeta delta [mbind res_bind]. cbn [scheme].
  destruct (urlparse_protocol_relative h2 rest Hh2) as (u & -> & Hs & Hn & Hp).
  cbv beta iota zeta. rewrite Hs, Hn.
  change (negb (String.eqb "https" "https") || negb (mem "https" uses_relative))
    with false.
  change (mem "https" uses_netloc) with true.
  rewrite Hne2. cbv beta iota delta [andb].
  destruct (urlunparse_host h2 (path u) (params u) (query u) (fragment u) Hne2 Hp)
    as [rest' Hr].
  exists rest'. f_equal. exact Hr.
Qed.

End RootMore.

Section ClassifierCases.
Import PyStr UrlParse.
Context (cfg : config) (host : string).
Hypothesis Hroot : BASE_URL cfg = site_root host.
Hypothesis Hhost : plain_host host = true.

(** A reference that joins to a URL on a plain host is internal exactly
    when that host is the root's. *)
Lemma is_internal_link_on_host href h2 rest :
  nonempty href = true →
  plain_host h2 = true →
  urljoin (BASE_URL cfg) href = Ok ("https://" +:+ h2 +:+ String "/" rest) →
  is_internal_link cfg (Some href) = Ok (String.eqb h2 host).
Proof.
  intros Hne Hh2 Hjoin. unfold is_internal_link. rewrite Hne, Hjoin.
  pose proof Hhost as [_ Hh]%andb_prop. pose proof Hh2 as [_ Hh']%andb_prop.
  destruct (urlparse_site_root h2 rest Hh') as (p & Hp & _ & Hnl).
  cbv beta iota zeta delta [mbind res_bind negb]. rewrite Hp.
  rewrite Hroot, urlparse_root by done.
  cbn [netloc] in Hnl |- *. by rewrite Hnl.
Qed.

Lemma is_internal_link_local href u :
  nonempty href = true →
  urlparse href "https" = Ok u →
  scheme u = "https" → netloc u = EmptyString →
  is_internal_link cfg (Some href) = Ok true.
Proof.
  intros Hne Hu Hs Hn.
  destruct (urljoin_root_local host href u Hhost Hne Hu Hs Hn) as [rest Hj].
  rewrite (is_internal_link_on_host href host rest); [|done..|by rewrite Hroot].
  by rewrite String.eqb_refl.
Qed.

Lemma is_internal_link_single_slash rest :
  startswith "/" (remove unsafe_url_byte rest) = false →
  is_internal_link cfg (Some (String "/" rest)) = Ok true.
Proof.
  intros Hrest.
  destruct (urlparse_single_slash rest "https" Hrest) as (u & Hu & Hs & Hn).
  by apply (is_internal_link_local _ u).
Qed.

Lemma is_internal_link_other_host h2 rest :
  plain_host h2 = true → h2 ≠ host →
  is_internal_link cfg (Some ("https://" +:+ h2 +:+ String "/" rest)) = Ok false
  ∧ is_internal_link cfg (Some ("//" +:+ h2 +:+ String "/" rest)) = Ok false.
Proof.
  intros Hh2 Hne. apply String.eqb_neq in Hne. split.
  - destruct (urljoin_root_absolute host h2 rest Hhost Hh2) as [rest' Hj].
    rewrite (is_internal_link_on_host _ h2 rest'); [by rewrite Hne|done..|by rewrite Hroot].
  - destruct (urljoin_root_protocol_relative host h2 rest Hhost Hh2) as [rest' Hj].
    rewrite (is_internal_link_on_host _ h2 rest'); [by rewrite Hne|done..|by rewrite Hroot].
Qed.

Lemma is_internal_link_fragment f :
  is_internal_link cfg (Some (String "#" f)) = Ok true.
Proof.
  by apply (is_internal_link_local (String "#" f) _ eq_refl (urlparse_fragment_only f)).
Qed.

End ClassifierCases.

(** The classifier raises nothing but the [ValueError] of the URL
    functions. *)
Lemma is_internal_link_raises cfg href e :
  is_internal_link cfg href = Raise e → e = ValueError.
Proof.
  unfold is_internal_link. destruct href as [href|]; [|done].
  destruct (negb (PyStr.nonempty href)); [done|].
  destruct (UrlParse.urljoin (BASE_URL cfg) href) as [joined|e1] eqn:Hj;
    [|intros [= <-]; by eapply urljoin_raises].
  cbv beta iota zeta delta [mbind res_bind].
  destruct (UrlParse.urlparse joined EmptyString) as [parsed|e1] eqn:Hp;
    [|intros [= <-]; by eapply urlparse_raises].
  destruct (UrlParse.urlparse (BASE_URL cfg) EmptyString) as [root|e1] eqn:Hr;
    [done|intros [= <-]; by eapply urlparse_raises].
Qed.

(** C2 (counterexample): with the configured root, the classifier answers
    true, not false, on the fragment-only reference [#section]. *)
Lemma fragment_only_href_is_internal :
  is_internal_link CONFIG (Some "#section") = Ok true
  ∧ is_internal_link CONFIG (Some "#section") ≠ Ok false.
Proof. split; [vm_compute; reflexivity | vm_compute; discriminate]. Qed.

(** C2 (amended): [is_internal_link] answers false on a missing or empty
    href.  On an href that [urljoin] and [urlparse] resolve it answers
    whether the network location is the root's, hence false on every other
    network location; where they do not resolve it, it raises their
    [ValueError] and nothing else.  With a root [https://host/] on a plain
    host it answers false on every [https] URL and every protocol-relative
    reference on another plain host; true on every href that starts with
    one slash not followed by a second (tabs and line breaks, which
    [urlsplit] drops, not counted); true on every href that names no
    scheme and no network location of its own; and true on every
    fragment-only href, which resolves to the root page itself.  It is
    [gather_page_urls] that keeps fragment-only anchors out: it cuts the
    fragment off first and hands the classifier the empty string. *)
Theorem is_internal_link_cases (cfg : config) :
  is_internal_link cfg None = Ok false
  ∧ is_internal_link cfg (Some EmptyString) = Ok false
  ∧ (∀ href joined parsed root,
       PyStr.nonempty href = true →
       UrlParse.urljoin (BASE_URL cfg) href = Ok joined →
       UrlParse.urlparse joined EmptyString = Ok parsed →
       UrlParse.urlparse (BASE_URL cfg) EmptyString = Ok root →
       is_internal_link cfg (Some href)
       = Ok (String.eqb (UrlParse.netloc parsed) (UrlParse.netloc root))
       ∧ (UrlParse.netloc parsed ≠ UrlParse.netloc root →
          is_internal_link cfg (Some href) = Ok false))
  ∧ (∀ href e, is_internal_link cfg href = Raise e → e = ValueError)
  ∧ (∀ host,
       plain_host host = true → BASE_URL cfg = site_root host →
       (∀ h2 rest,
          plain_host h2 = true → h2 ≠ host →
          is_internal_link cfg (Some ("https://" +:+ h2 +:+ String "/" rest)) = Ok false
          ∧ is_internal_link cfg (Some ("//" +:+ h2 +:+ String "/" rest)) = Ok false)
       ∧ (∀ rest,
            PyStr.startswith "/" (PyStr.remove UrlParse.unsafe_url_byte rest) = false →
            is_internal_link cfg (Some (String "/" rest)) = Ok true)
       ∧ (∀ href u,
            PyStr.nonempty href = true →
            UrlParse.urlparse href "https" = Ok u →
            UrlParse.scheme u = "https" → UrlParse.netloc u = EmptyString →
            is_internal_link cfg (Some href) = Ok true)
       ∧ (∀ f, is_internal_link cfg (Some (String "#" f)) = Ok true))
  ∧ (∀ base urls f, gather_anchor cfg base urls (String "#" f) = Ok urls).
Proof.
  split_and!.
  - reflexivity.
  - reflexivity.
  - intros href joined parsed root Hne Hj Hp Hr.
    assert (is_internal_link cfg (Some href)
            = Ok (String.eqb (UrlParse.netloc parsed) (UrlParse.netloc root))) as Heq.
    { unfold is_internal_link. rewrite Hne, Hj. simpl. rewrite Hp. simpl.
      by rewrite Hr. }
    split; [exact Heq|]. intros Hnl. rewrite Heq. f_equal. by apply String.eqb_neq.
  - apply is_internal_link_raises.
  - intros host Hhost Hroot. split_and!.
    + intros h2 rest. by apply (is_internal_link_other_host cfg host).
    + intros rest. by apply (is_internal_link_single_slash cfg host).
    + intros href u. by apply (is_internal_link_local cfg host).
    + intros f. by apply (is_internal_link_fragment cfg host).
  - intros base urls f. reflexivity.
Qed.

(** X2: the fragment of an anchor does not matter to the page link
    extractor: an href cut at its first [#] is what is classified and
    joined, so an anchor with a fragment is handled exactly like the
    anchor without it. *)
Theorem anchor_fragment_is_ignored (cfg : config) (base : string)
    (urls : gset string) (h f : string) :
  PyStr.contains "#" h = false →
  gather_anchor cfg base urls (h +:+ String "#" f) = gather_anchor cfg base urls h.
Proof.
  intros Hh. unfold gather_anchor.
  by rewrite partition_app, partition_without.
Qed.

(** X15: with a root [https://host/] on a plain host, an absolute
    [https] URL on a plain host is classified internal exactly when its
    host is the root's host, whatever its path, query and fragment. *)
Theorem absolute_href_internal_iff_same_host (cfg : config)
    (host h2 rest : string) :
  plain_host host = true →
  plain_host h2 = true →
  BASE_URL cfg = site_root host →
  is_internal_link cfg (Some ("https://" +:+ h2 +:+ String "/" rest))
  = Ok (String.eqb h2 host).
Proof.
  intros Hhost Hh2 Hroot. unfold is_internal_link.
  change (PyStr.nonempty ("https://" +:+ h2 +:+ String "/" rest)) with true.
  cbv beta iota delta [negb]. rewrite Hroot.
  destruct (urljoin_root_absolute host h2 rest Hhost Hh2) as [rest' ->].
  pose proof Hhost as [_ Hh]%andb_prop. pose proof Hh2 as [_ Hh']%andb_prop.
  destruct (urlparse_site_root h2 rest' Hh') as (p & Hp & _ & Hnl).
  cbv beta iota zeta delta [mbind res_bind]. rewrite Hp.
  rewrite urlparse_root by done.
  cbv beta iota zeta delta [UrlParse.netloc] in Hnl |- *. by rewrite Hnl.
Qed.



(** * More on the crawl loop *)

Section CrawlMore.
Context (cfg : config) (w : world).

(** A pass whose fetch and extractions all return. *)
Lemma iteration_success url st html vids pages :
  url ∉ visited_pages st →
  requests_get w url = Some html →
  find_video_urls w html url = Ok vids →
  gather_page_urls cfg w html url = Ok pages →
  iteration cfg w url st
  = Continue (mkCrawl (visited_pages st ∪ {[url]})
                (to_crawl st ∖ {[url]} ∪ pages ∖ (visited_pages st ∪ {[url]}))
                (found_videos st ∪ vids) (fetched st ++ [url])).
Proof.
  intros Hnin Hget Hfind Hgather. unfold iteration. simpl.
  rewrite bool_decide_eq_false_2 by done. by rewrite Hget, Hfind, Hgather.
Qed.

(** The ways a pass can go on to the next one. *)
Lemma next_cases st st' :
  next cfg w st st' →
  ∃ url, url ∈ to_crawl st ∧
    (((url ∈ visited_pages st)
      ∧ st' = mkCrawl (visited_pages st) (to_crawl st ∖ {[url]})
                (found_videos st) (fetched st))
     ∨ ((url ∉ visited_pages st) ∧ requests_get w url = None
        ∧ st' = mkCrawl (visited_pages st ∪ {[url]}) (to_crawl st ∖ {[url]})
                  (found_videos st) (fetched st ++ [url]))
     ∨ (∃ html vids pages,
          (url ∉ visited_pages st)
          ∧ requests_get w url = Some html
          ∧ find_video_urls w html url = Ok vids
          ∧ gather_page_urls cfg w html url = Ok pages
          ∧ st' = mkCrawl (visited_pages st ∪ {[url]})
                    (to_crawl st ∖ {[url]} ∪ pages ∖ (visited_pages st ∪ {[url]}))
                    (found_videos st ∪ vids) (fetched st ++ [url]))).
Proof.
  intros Hstep. inversion Hstep as [st0 url Hc Hin Hst0 Ho]. subst st0.
  exists url. split; [done|].
  destruct (decide (url ∈ visited_pages st)) as [Hv|Hv].
  - left. rewrite iteration_skip in Ho by done. by injection Ho as <-.
  - right. revert Ho. unfold iteration. simpl.
    rewrite bool_decide_eq_false_2 by done.
    destruct (requests_get w url) as [html|] eqn:Hget.
    + destruct (find_video_urls w html url) as [vids|e] eqn:Hfind; [|done].
      destruct (gather_page_urls cfg w html url) as [pages|e] eqn:Hgather; [|done].
      intros [= <-]. right. by exists html, vids, pages.
    + intros [= <-]. by left.
Qed.

(** The loop function only makes passes of the step relation, and stops
    normally only where the loop condition fails. *)
Lemma crawl_loop_sound fuel :
  ∀ i st st', crawl_loop cfg w fuel i st = Some (Continue st') →
              rtc (next cfg w) st st' ∧ loop_cond cfg st' = false.
Proof.
  induction fuel as [|fuel IH]; intros i st st'; simpl; [done|].
  destruct (loop_cond cfg st) eqn:Hc.
  - unfold pop.
    destruct (elements (to_crawl st) !! _) as [url|] eqn:Hpop; [|done].
    assert (url ∈ to_crawl st) as Hin.
    { apply elem_of_elements. by eapply list_elem_of_lookup_2. }
    destruct (iteration cfg w url st) as [st1|e st1] eqn:Hit; [|done].
    intros (Hrun & Hc')%IH. split; [|done].
    eapply rtc_l; [|exact Hrun]. unfold next. rewrite <- Hit. by constructor.
  - intros [= <-]. split; [apply rtc_refl|done].
Qed.

Lemma found_videos_from_pages st :
  reachable cfg w st →
  ∀ v, v ∈ found_videos st →
       ∃ url html vids,
         url ∈ visited_pages st
         ∧ requests_get w url = Some html
         ∧ find_video_urls w html url = Ok vids
         ∧ v ∈ vids.
Proof.
  induction 1 as [|st st' _ IH Hstep]; intros v Hv.
  - by apply not_elem_of_empty in Hv.
  - destruct (next_cases st st' Hstep)
      as (url & _ & [(_ & ->)|[(_ & _ & ->)|(html & vids & pages & _ & Hget
                                              & Hfind & _ & ->)]]);
      simpl in *.
    + apply IH, Hv.
    + destruct (IH v Hv) as (u & h & vs & Hu & ?). exists u, h, vs.
      split; [set_solver|done].
    + apply elem_of_union in Hv as [Hv|Hv].
      * destruct (IH v Hv) as (u & h & vs & Hu & ?). exists u, h, vs.
        split; [set_solver|done].
      * exists url, html, vids. split; [set_solver|done].
Qed.

Lemma found_videos_mono st st' :
  rtc (next cfg w) st st' → found_videos st ⊆ found_videos st'.
Proof.
  induction 1 as [|st st1 st2 Hstep _ IH]; [done|].
  etrans; [|exact IH].
  destruct (next_cases st st1 Hstep)
    as (url & _ & [(_ & ->)|[(_ & _ & ->)|(html & vids & pages & _ & _ & _ & _ & ->)]]);
    simpl; set_solver.
Qed.

(** The links of every page fetched so far are visited or wait in the
    frontier. *)
Lemma links_visited_or_waiting st :
  reachable cfg w st →
  ∀ u html pages,
    u ∈ visited_pages st →
    requests_get w u = Some html →
    gather_page_urls cfg w html u = Ok pages →
    pages ⊆ visited_pages st ∪ to_crawl st.
Proof.
  induction 1 as [|st st' _ IH Hstep]; intros u html pages Hu Hget Hgather.
  - by apply not_elem_of_empty in Hu.
  - destruct (next_cases st st' Hstep)
      as (url & Hin & [(Hv & ->)|[(Hv & Hnone & ->)|(html' & vids & pages' & Hv
                                              & Hget' & _ & Hgather' & ->)]]);
      simpl in *.
    + pose proof (IH u html pages Hu Hget Hgather). 
      intros x Hx. destruct (decide (x = url)) as [->|]; set_solver.
    + apply elem_of_union in Hu as [Hu|Hu%elem_of_singleton].
      * pose proof (IH u html pages Hu Hget Hgather).
        intros x Hx. destruct (decide (x = url)) as [->|]; set_solver.
      * subst u. congruence.
    + apply elem_of_union in Hu as [Hu|Hu%elem_of_singleton].
      * pose proof (IH u html pages Hu Hget Hgather).
        intros x Hx. destruct (decide (x = url)) as [->|]; set_solver.
      * subst u. rewrite Hget in Hget'. injection Hget' as <-.
        rewrite Hgather in Hgather'. injection Hgather' as <-.
        intros x Hx.
        destruct (decide (x ∈ visited_pages st ∪ {[url]})); set_solver.
Qed.

End CrawlMore.

(** X5: every URL in the set of videos was extracted by [find_video_urls]
    from a page that was fetched successfully and is in the visited set. *)
Theorem found_videos_provenance (cfg : config) (w : world) (st : crawl_state) :
  reachable cfg w st →
  ∀ v, v ∈ found_videos st →
       ∃ url html vids,
         url ∈ visited_pages st
         ∧ requests_get w url = Some html
         ∧ find_video_urls w html url = Ok vids
         ∧ v ∈ vids.
Proof. apply found_videos_from_pages. Qed.

(** X6: the set of videos never loses a URL: over any number of passes of
    the loop it can only grow. *)
Theorem found_videos_only_grows (cfg : config) (w : world) (st st' : crawl_state) :
  rtc (next cfg w) st st' → found_videos st ⊆ found_videos st'.
Proof. apply found_videos_mono. Qed.

(** X7: at the head of every pass the visited set is exactly the set of
    the URLs for which a GET was issued, so the page count that [main]
    reports, the size of the visited set, is the number of pages
    requested. *)
Theorem visited_is_fetched (cfg : config) (w : world) (st : crawl_state) :
  reachable cfg w st →
  list_to_set (fetched st) = visited_pages st
  ∧ length (fetched st) = size (visited_pages st).
Proof.
  intros Hreach. pose proof (reachable_inv cfg w st Hreach) as Hinv.
  split; [apply Hinv|]. by apply inv_size.
Qed.

(** X8: the links of every page fetched so far are in the visited set or
    in the frontier; so when the loop is left with an empty frontier,
    every link that [gather_page_urls] found on any fetched page has been
    visited: nothing that was discovered is left out. *)
Theorem crawl_is_link_closed (cfg : config) (w : world) (st : crawl_state) :
  reachable cfg w st →
  ∀ u html pages,
    u ∈ visited_pages st →
    requests_get w u = Some html →
    gather_page_urls cfg w html u = Ok pages →
    pages ⊆ visited_pages st ∪ to_crawl st
    ∧ (to_crawl st = ∅ → pages ⊆ visited_pages st).
Proof.
  intros Hreach u html pages Hu Hget Hgather.
  pose proof (links_visited_or_waiting cfg w st Hreach u html pages Hu Hget Hgather).
  split; [done|]. intros Hempty. set_solver.
Qed.

(** X9: an exception raised while the links or the videos of a fetched
    page are extracted is not caught: the pass ends the loop with it, with
    the URL already logged and counted as visited; when this happens on the
    root page, [main] raises and nothing is downloaded. *)
Theorem extraction_error_ends_crawl (cfg : config) (w : world) (fuel i : nat)
    (st : crawl_state) (url html : string) (e : exn) :
  loop_cond cfg st = true →
  pop w i (to_crawl st) = Some url →
  url ∉ visited_pages st →
  requests_get w url = Some html →
  find_video_urls w html url = Raise e
  ∨ (∃ vids, find_video_urls w html url = Ok vids
             ∧ gather_page_urls cfg w html url = Raise e) →
  ∃ st', crawl_loop cfg w (S fuel) i st = Some (Uncaught e st')
         ∧ visited_pages st' = visited_pages st ∪ {[url]}
         ∧ fetched st' = (fetched st ++ [url])%list
         ∧ to_crawl st' = to_crawl st ∖ {[url]}
         ∧ (i = 0 → st = initial cfg →
            ∀ d, main cfg w (S fuel) d = Some (st', d, Raise e)).
Proof.
  intros Hc Hpop Hnin Hget Hraise.
  assert (∃ st', iteration cfg w url st = Uncaught e st'
                 ∧ visited_pages st' = visited_pages st ∪ {[url]}
                 ∧ fetched st' = (fetched st ++ [url])%list
                 ∧ to_crawl st' = to_crawl st ∖ {[url]})
    as (st' & Hit & Hv & Hf & Ht).
  { unfold iteration. simpl. rewrite bool_decide_eq_false_2 by done.
    rewrite Hget. destruct Hraise as [->|(vids & -> & ->)];
      eexists; split_and!; reflexivity. }
  exists st'. cbn [crawl_loop]. rewrite Hc, Hpop, Hit.
  split_and!; [done..|].
  intros -> -> d. unfold main. cbn [crawl_loop]. by rewrite Hc, Hpop, Hit.
Qed.

(** X10: when [main] returns normally, the crawl has stopped because its
    loop condition failed, and for every video URL it found the check of
    [download_file] now finds its file: a file named by the basename of
    the URL path is in the video folder, unless that basename is empty,
    [.] or [..], in which case the check finds the folder itself or its
    parent and nothing is stored for the URL. *)
Theorem main_returns_all_stored (cfg : config) (w : world) (fuel : nat)
    (d d' : dstate) (st : crawl_state) :
  main cfg w fuel d = Some (st, d', Ok tt) →
  reachable cfg w st
  ∧ loop_cond cfg st = false
  ∧ ∀ u, u ∈ found_videos st →
      already_there (fs d') (VIDEO_DIR cfg) u
      ∧ ∃ parsed,
          UrlParse.urlparse u EmptyString = Ok parsed
          ∧ (UrlParse.mem (basename (UrlParse.path parsed)) [""; "."; ".."] = false →
             is_Some (fs d' !! path_join (VIDEO_DIR cfg)
                                 (basename (UrlParse.path parsed)))).
Proof.
  assert (∀ files dest u,
            already_there files dest u →
            already_there files dest u
            ∧ ∃ parsed,
                UrlParse.urlparse u EmptyString = Ok parsed
                ∧ (UrlParse.mem (basename (UrlParse.path parsed)) [""; "."; ".."] = false →
                   is_Some (files !! path_join dest (basename (UrlParse.path parsed)))))
    as Hthere.
  { intros files dest u Hu. split; [exact Hu|].
    destruct Hu as (_ & parsed & Hp & Hex). exists parsed. split; [done|].
    intros Hname. unfold path_exists in Hex. rewrite Hname in Hex.
    by apply bool_decide_eq_true in Hex. }
  unfold main.
  destruct (crawl_loop cfg w fuel 0 (initial cfg)) as [[st1|e st1]|] eqn:Hloop;
    [| done..].
  apply crawl_loop_sound in Hloop as [Hrun Hc].
  assert (reachable cfg w st1) as Hreach
    by (eapply run_reachable; [constructor|exact Hrun]).
  destruct (bool_decide (found_videos st1 = ∅)) eqn:Hempty.
  - intros [= <- <-]. split_and!; [done..|].
    apply bool_decide_eq_true in Hempty. intros u Hu. set_solver.
  - destruct (download_all w (found_videos st1) (VIDEO_DIR cfg) d) as [d1 r] eqn:Hd.
    intros [= <- <- ->]. split_and!; [done..|].
    intros u Hu. apply Hthere. unfold download_all in Hd.
    apply download_each_ok_there in Hd. rewrite Forall_forall in Hd.
    apply Hd. unfold sorted. rewrite merge_sort_Permutation.
    by apply elem_of_elements.
Qed.

(** X11: when the root page is fetched and has no anchor, no [source]
    under a [video] and no match of the patterns, [main] returns after
    that one page with no video found, and downloads nothing. *)
Theorem blank_root_page (cfg : config) (w : world) (html : string) :
  requests_get w (BASE_URL cfg) = Some html →
  soup_anchor_hrefs w html = [] →
  soup_video_sources w html = [] →
  pattern_pass html = [] →
  ∀ n d, ∃ st, main cfg w (S (S n)) d = Some (st, d, Ok tt)
               ∧ found_videos st = ∅
               ∧ loop_cond cfg st = false
               ∧ visited_pages st ⊆ {[BASE_URL cfg]}
               ∧ length (fetched st) ≤ 1.
Proof.
  intros Hget Ha Hs Hp n d. unfold main. simpl.
  destruct (loop_cond cfg (initial cfg)) eqn:Hc.
  - unfold initial at 1. simpl. rewrite pop_singleton.
    rewrite (iteration_success cfg w _ _ html ∅ ∅);
      [|set_solver|done| |].
    2:{ unfold find_video_urls. by rewrite Hs, Hp. }
    2:{ unfold gather_page_urls. by rewrite Ha. }
    set (st1 := mkCrawl _ _ _ _).
    assert (loop_cond cfg st1 = false) as Hc1.
    { unfold loop_cond, st1. simpl.
      rewrite bool_decide_eq_true_2 by set_solver. done. }
    rewrite Hc1. simpl. rewrite bool_decide_eq_true_2 by set_solver.
    exists st1. split_and!; [done | set_solver | done | set_solver | simpl; lia].
  - simpl. rewrite bool_decide_eq_true_2 by done.
    exists (initial cfg). split_and!; [done | done | done | set_solver | simpl; lia].
Qed.



(** * More on the download stage *)

Section DownloadMore.
Import PyStr UrlParse.
Context (w : world).

Lemma contains_after_last c s : contains c (after_last c s) = false.
Proof.
  induction s as [|d s IH]; [done|]. cbn [after_last].
  destruct (contains c s) eqn:Hs; [exact IH|].
  destruct (Ascii.eqb c d) eqn:Hcd; [exact Hs|].
  cbn [contains]. by rewrite Hcd.
Qed.

(** A file that a call creates is named by the basename of the URL, which
    has no slash and is none of the names of the folder or its parent. *)
Lemma download_file_new url dest d d' r p :
  download_file w url dest d = (d', r) →
  fs d !! p = None → is_Some (fs d' !! p) →
  ∃ parsed, urlparse url EmptyString = Ok parsed
            ∧ p = path_join dest (basename (path parsed))
            ∧ contains "/" (basename (path parsed)) = false
            ∧ mem (basename (path parsed)) [""; "."; ".."] = false.
Proof.
  unfold download_file. simpl.
  destruct (makedirs dest (fs d)) as [[]|e];
    [|intros [= <- _] Hn [? Hs]; simpl in Hs; congruence].
  destruct (urlparse url EmptyString) as [parsed|e];
    [|intros [= <- _] Hn [? Hs]; simpl in Hs; congruence].
  unfold path_exists.
  destruct (mem (basename (path parsed)) _) eqn:Hsp;
    [intros [= <- _] Hn [? Hs]; simpl in Hs; congruence|].
  destruct (bool_decide _);
    [intros [= <- _] Hn [? Hs]; simpl in Hs; congruence|].
  destruct (requests_get_stream w url) as [| |chunks complete|chunks];
    [intros [= <- _] Hn [? Hs]; simpl in Hs; congruence
    |intros [= <- _] Hn [? Hs]; simpl in Hs; congruence | |];
    (intros [= <- _] Hn [c Hs]; simpl in Hs;
     destruct (decide (path_join dest (basename (path parsed)) = p)) as [<-|Hne];
     [exists parsed; split_and!; [done | done | apply contains_after_last | done]
     |rewrite lookup_insert_ne in Hs by done; congruence]).
Qed.

Lemma download_each_new urls dest :
  ∀ d d' r p,
    download_each w urls dest d = (d', r) →
    fs d !! p = None → is_Some (fs d' !! p) →
    ∃ url parsed, url ∈ urls
                  ∧ urlparse url EmptyString = Ok parsed
                  ∧ p = path_join dest (basename (path parsed))
                  ∧ contains "/" (basename (path parsed)) = false
                  ∧ mem (basename (path parsed)) [""; "."; ".."] = false.
Proof.
  induction urls as [|url urls IH]; intros d d' r p; simpl.
  - intros [= <- _] Hn [c Hs]. congruence.
  - destruct (download_file w url dest d) as [d1 r1] eqn:Hd. intros Hrun Hn Hs.
    destruct (fs d1 !! p) as [c|] eqn:Hp.
    + destruct (download_file_new _ _ _ _ _ _ Hd Hn) as (parsed & ?); [by eexists|].
      exists url, parsed. split; [left|done].
    + destruct r1 as [[]|e].
      * destruct (IH _ _ _ _ Hrun Hp Hs) as (u & parsed & Hu & ?).
        exists u, parsed. split; [by right|done].
      * injection Hrun as <- _. destruct Hs as [c Hs]. congruence.
Qed.

End DownloadMore.

(** X12: every file that a run of the download loop creates lies directly
    in the destination folder and is named by the path basename of one of
    the URLs: a name without slash that is not empty and neither [.] nor
    [..]. *)
Theorem new_files_are_in_folder (w : world) (found : gset string)
    (dest : string) (d d' : dstate) (r : res unit) (p : string) :
  download_all w found dest d = (d', r) →
  fs d !! p = None →
  is_Some (fs d' !! p) →
  ∃ url parsed,
    url ∈ found
    ∧ UrlParse.urlparse url EmptyString = Ok parsed
    ∧ p = path_join dest (basename (UrlParse.path parsed))
    ∧ PyStr.contains "/" (basename (UrlParse.path parsed)) = false
    ∧ UrlParse.mem (basename (UrlParse.path parsed)) [""; "."; ".."] = false.
Proof.
  intros Hrun Hn Hs. unfold download_all in Hrun.
  destruct (download_each_new w _ _ _ _ _ _ Hrun Hn Hs) as (url & parsed & Hu & ?).
  exists url, parsed. split; [|done].
  apply elem_of_elements. unfold sorted in Hu.
  by rewrite merge_sort_Permutation in Hu.
Qed.

(** X13: files are told apart by the basename of the URL path alone: once
    the file of one URL is stored, a URL with the same basename, whatever
    its host and folder, is skipped without a request, and its content is
    never stored. *)
Theorem same_basename_is_skipped (w w2 : world) (dest u1 u2 : string)
    (p1 p2 : UrlParse.ParseResult) (d d1 : dstate) :
  download_file w u1 dest d = (d1, Ok tt) →
  UrlParse.urlparse u1 EmptyString = Ok p1 →
  UrlParse.urlparse u2 EmptyString = Ok p2 →
  basename (UrlParse.path p1) = basename (UrlParse.path p2) →
  download_file w2 u2 dest d1
  = (mkDState (fs d1) (transfers d1) (processed d1 ++ [u2]), Ok tt).
Proof.
  intros Hd Hp1 Hp2 Hname.
  apply download_file_ok_there in Hd as (Hmk & parsed & Hp & Hex).
  rewrite Hp1 in Hp. injection Hp as <-.
  apply download_file_skip. split; [done|]. exists p2. by rewrite <- Hname.
Qed.

(** X14: when the body of a download breaks off, the exception leaves
    [download_file] with the part received so far stored under the file
    name; every later call for that URL finds the file, makes no request
    and returns, so the truncated file is never completed. *)
Theorem broken_stream_leaves_partial_file (w w2 : world) (url dest : string)
    (d : dstate) (parsed : UrlParse.ParseResult) (chunks : list string) :
  makedirs dest (fs d) = Ok tt →
  UrlParse.urlparse url EmptyString = Ok parsed →
  path_exists (fs d) dest (basename (UrlParse.path parsed)) = false →
  requests_get_stream w url = Body chunks false →
  ∃ d1, download_file w url dest d = (d1, Raise RequestException)
        ∧ fs d1 !! path_join dest (basename (UrlParse.path parsed))
          = Some (PyStr.join EmptyString (List.filter PyStr.nonempty chunks))
        ∧ download_file w2 url dest d1
          = (mkDState (fs d1) (transfers d1) (processed d1 ++ [url]), Ok tt).
Proof.
  intros Hmk Hp Hex Hbody.
  assert (download_file w url dest d
          = (mkDState
               (<[path_join dest (basename (UrlParse.path parsed))
                  := PyStr.join EmptyString (List.filter PyStr.nonempty chunks)]> (fs d))
               (transfers d ++ [url]) (processed d ++ [url]),
             Raise RequestException)) as Hd.
  { unfold download_file. simpl. by rewrite Hmk, Hp, Hex, Hbody. }
  eexists. split; [exact Hd|]. simpl. split; [by rewrite lookup_insert_eq|].
  apply (download_file_skip w2 url dest (mkDState _ _ _)). simpl.
  split.
  - apply (makedirs_fs w _ _ _ _ _ Hd Hmk).
  - exists parsed. split; [done|]. unfold path_exists in *.
    destruct (UrlParse.mem _ _); [done|]. apply bool_decide_eq_true.
    rewrite lookup_insert_eq. by eexists.
Qed.

(** * How often the download loop handles a URL *)

Section DownloadLogs.
Context (w : world).

(** One call is logged once, and asks the network at most once. *)
Lemma download_file_logs url dest d d' r :
  download_file w url dest d = (d', r) →
  processed d' = (processed d ++ [url])%list
  ∧ (transfers d' = transfers d ∨ transfers d' = (transfers d ++ [url])%list).
Proof.
  unfold download_file. simpl.
  destruct (makedirs dest (fs d)); [|intros [= <- _]; auto].
  destruct (UrlParse.urlparse url EmptyString); [|intros [= <- _]; auto].
  destruct (path_exists _ _ _); [intros [= <- _]; auto|].
  destruct (requests_get_stream w url); intros [= <- _]; auto.
Qed.

Lemma download_each_logs urls dest :
  ∀ d d' r,
    download_each w urls dest d = (d', r) →
    ∃ called requested,
      processed d' = (processed d ++ called)%list
      ∧ transfers d' = (transfers d ++ requested)%list
      ∧ called `prefix_of` urls
      ∧ requested `sublist_of` called
      ∧ (r = Ok tt → called = urls).
Proof.
  induction urls as [|url urls IH]; intros d d' r; simpl.
  - intros [= <- <-]. exists [], []. rewrite !app_nil_r. by split_and!.
  - destruct (download_file w url dest d) as [d1 r1] eqn:Hd.
    destruct (download_file_logs _ _ _ _ _ Hd) as [Hp Ht].
    assert (∃ req1, transfers d1 = (transfers d ++ req1)%list
                    ∧ req1 `sublist_of` [url]) as (req1 & Ht1 & Hsub1).
    { destruct Ht as [->| ->].
      - exists []. rewrite app_nil_r. split; [done|]. apply sublist_nil_l.
      - by exists [url]. }
    destruct r1 as [[]|e]; intros Hrun.
    + destruct (IH _ _ _ Hrun) as (called & requested & Hp' & Ht' & Hpre & Hsub & Hall).
      exists (url :: called), (req1 ++ requested)%list.
      rewrite Hp', Hp, Ht', Ht1, <- !app_assoc. simpl.
      split_and!; [done | done | by apply prefix_cons | | intros Hr; by rewrite Hall].
      change (url :: called) with ([url] ++ called)%list. by apply sublist_app.
    + injection Hrun as <- <-. exists [url], req1.
      split_and!; [done | done | apply prefix_cons, prefix_nil | done | done].
Qed.

End DownloadLogs.

(** X16: in one run of the download loop no URL is handed to
    [download_file] twice and no URL is requested from the network twice;
    only URLs of the set are handled, and all of them when the loop
    returns. *)
Theorem each_video_at_most_once (w : world) (found : gset string)
    (dest : string) (d d' : dstate) (r : res unit) :
  download_all w found dest d = (d', r) →
  ∃ called requested,
    processed d' = (processed d ++ called)%list
    ∧ transfers d' = (transfers d ++ requested)%list
    ∧ NoDup called
    ∧ NoDup requested
    ∧ (∀ u, u ∈ requested → u ∈ called)
    ∧ (∀ u, u ∈ called → u ∈ found)
    ∧ (r = Ok tt → ∀ u, u ∈ found → u ∈ called).
Proof.
  intros Hrun. unfold download_all in Hrun.
  destruct (download_each_logs w _ _ _ _ _ Hrun)
    as (called & requested & Hp & Ht & [rest Hpre] & Hsub & Hall).
  assert (NoDup (sorted found)) as Hnd.
  { unfold sorted. rewrite merge_sort_Permutation. apply NoDup_elements. }
  assert (∀ u, u ∈ sorted found ↔ u ∈ found) as Hin.
  { intros u. unfold sorted. rewrite merge_sort_Permutation.
    apply elem_of_elements. }
  assert (NoDup called) as Hndc.
  { rewrite Hpre in Hnd. by apply NoDup_app in Hnd as (? & _). }
  exists called, requested. split_and!; [done | done | done | | | |].
  - by eapply sublist_NoDup.
  - intros u Hu. by eapply elem_of_sublist.
  - intros u Hu. apply Hin. rewrite Hpre. apply elem_of_app. by left.
  - intros -> u Hu. rewrite (Hall eq_refl). by apply Hin.
Qed.

(** X17: with a page ceiling of zero or less the loop is never entered:
    [main] fetches no page, finds no video and downloads nothing. *)
Theorem no_pages_without_ceiling (cfg : config) (w : world) (n : nat) (d : dstate) :
  (MAX_PAGES cfg ≤ 0)%Z →
  main cfg w (S n) d = Some (initial cfg, d, Ok tt).
Proof.
  intros Hmax. unfold main. cbn [crawl_loop].
  assert (loop_cond cfg (initial cfg) = false) as ->.
  { unfold loop_cond. apply andb_false_iff. right. apply Z.ltb_ge.
    change (visited_pages (initial cfg)) with (∅ : gset string).
    rewrite size_empty. simpl. lia. }
  by rewrite bool_decide_eq_true_2.
Qed.

(** * The further properties on the small sites *)

Lemma site_crawl_end :
  crawl_loop CONFIG Site.world_ok 10 0 (initial CONFIG) = Some (Continue Cases.crawl_end).
Proof. vm_compute. reflexivity. Defined.

Lemma site_crawl_end_reachable : reachable CONFIG Site.world_ok Cases.crawl_end.
Proof.
  eapply run_reachable; [apply reachable_initial|].
  exact (proj1 (crawl_loop_sound CONFIG Site.world_ok 10 0 _ _ site_crawl_end)).
Defined.

Lemma pattern_capture_is_greedy_witness :
  Patterns.is_quote PyStr.dquote = true
  ∧ PyStr.all (λ c, negb (Patterns.is_quote c)) "a.mp4x.mp4" = true
  ∧ Patterns.quote_or_end (String PyStr.dquote "></video>")
  ∧ Patterns.video_name "a.mp4x.mp4"
  ∧ "/video/" +:+ "a.mp4x.mp4"
    ∈ pattern_pass ("<a href='/video/b.webm'>b</a><video src="
                    +:+ Patterns.tag_text "src" PyStr.dquote "a.mp4x.mp4"
                          (String PyStr.dquote "></video>")).
Proof.
  assert (Patterns.video_name "a.mp4x.mp4") as Hname.
  { exists "a.mp4x", "mp4". split_and!; [done | by left | reflexivity]. }
  split_and!; [reflexivity | reflexivity | reflexivity | exact Hname |].
  destruct (pattern_capture_is_greedy "src" PyStr.dquote "a.mp4x.mp4"
              (String PyStr.dquote "></video>") eq_refl eq_refl eq_refl)
    as (_ & _ & _ & Hpage).
  destruct (Hpage (or_introl eq_refl) "<a href='/video/b.webm'>b</a><video src=")
    as (_ & Hwhole & _).
  exact (Hwhole Hname).
Defined.

Lemma is_internal_link_cases_witness :
  plain_host "enterawebsite.com" = true
  ∧ BASE_URL CONFIG = site_root "enterawebsite.com"
  ∧ is_internal_link CONFIG (Some "/a") = Ok true
  ∧ is_internal_link CONFIG (Some "/video/a b.mp4?x=1") = Ok true
  ∧ is_internal_link CONFIG (Some "#section") = Ok true
  ∧ is_internal_link CONFIG (Some "https://other.test/a") = Ok false
  ∧ is_internal_link CONFIG (Some "//other.test/a") = Ok false
  ∧ is_internal_link CONFIG (Some "https://[::1]/x") = Ok false
  ∧ is_internal_link CONFIG (Some ("https://m" +:+ String "252" "nchen.de/")) = Ok false.
Proof.
  destruct (is_internal_link_cases CONFIG) as (_ & _ & Hother & _ & Hroot & _).
  destruct (Hroot "enterawebsite.com" eq_refl eq_refl) as (Hhost & Hslash & _ & Hf).
  assert ("other.test" ≠ "enterawebsite.com") as Hne by discriminate.
  split_and!; [reflexivity | reflexivity | exact (Hslash "a" eq_refl)
    | exact (Hslash "video/a b.mp4?x=1" eq_refl) | exact (Hf "section")
    | exact (proj1 (Hhost "other.test" "a" eq_refl Hne))
    | exact (proj2 (Hhost "other.test" "a" eq_refl Hne)) | |].
  - refine (proj2 (Hother "https://[::1]/x" "https://[::1]/x"
                     (UrlParse.mkParse "https" "[::1]" "/x" "" "" "")
                     (UrlParse.mkParse "https" "enterawebsite.com" "/" "" "" "")
                     eq_refl _ _ _) _);
      [vm_compute; reflexivity | vm_compute; reflexivity | vm_compute; reflexivity
      | discriminate].
  - refine (proj2 (Hother ("https://m" +:+ String "252" "nchen.de/")
                     ("https://m" +:+ String "252" "nchen.de/")
                     (UrlParse.mkParse "https" ("m" +:+ String "252" "nchen.de") "/" "" "" "")
                     (UrlParse.mkParse "https" "enterawebsite.com" "/" "" "" "")
                     eq_refl _ _ _) _);
      [vm_compute; reflexivity | vm_compute; reflexivity | vm_compute; reflexivity
      | vm_compute; discriminate].
Defined.

Lemma gather_page_urls_elements_witness :
  gather_page_urls CONFIG Site.world_ Site.root_html (BASE_URL CONFIG)
  = Ok {[ "https://enterawebsite.com/a"; "https://enterawebsite.com/b";
          "https://enterawebsite.com/video/clip.webm" ]}
  ∧ ∃ a, a ∈ soup_anchor_hrefs Site.world_ Site.root_html
         ∧ is_internal_link CONFIG (Some (PyStr.partition "#" a).1) = Ok true
         ∧ UrlParse.urljoin (BASE_URL CONFIG) (PyStr.partition "#" a).1
           = Ok "https://enterawebsite.com/b".
Proof.
  assert (gather_page_urls CONFIG Site.world_ Site.root_html (BASE_URL CONFIG)
          = Ok {[ "https://enterawebsite.com/a"; "https://enterawebsite.com/b";
                  "https://enterawebsite.com/video/clip.webm" ]}) as Hrun
    by (vm_compute; reflexivity).
  split; [exact Hrun|].
  apply (proj1 (gather_page_urls_elements CONFIG Site.world_ Site.root_html
                  (BASE_URL CONFIG)) _ Hrun "https://enterawebsite.com/b").
  vm_compute. reflexivity.
Defined.

Lemma anchor_fragment_is_ignored_witness :
  PyStr.contains "#" "/b" = false
  ∧ gather_anchor CONFIG (BASE_URL CONFIG) ∅ ("/b" +:+ String "#" "top")
    = gather_anchor CONFIG (BASE_URL CONFIG) ∅ "/b".
Proof.
  split; [reflexivity|].
  exact (anchor_fragment_is_ignored CONFIG (BASE_URL CONFIG) ∅ "/b" "top" eq_refl).
Defined.

Lemma find_video_urls_elements_witness :
  find_video_urls Site.world_ Site.root_html (BASE_URL CONFIG)
  = Ok {[ "https://enterawebsite.com/video/clip.webm";
          "https://enterawebsite.com/video/intro.mp4" ]}
  ∧ "https://enterawebsite.com/video/clip.webm"
    ∈ ({[ "https://enterawebsite.com/video/clip.webm";
          "https://enterawebsite.com/video/intro.mp4" ]} : gset string).
Proof.
  assert (find_video_urls Site.world_ Site.root_html (BASE_URL CONFIG)
          = Ok {[ "https://enterawebsite.com/video/clip.webm";
                  "https://enterawebsite.com/video/intro.mp4" ]}) as Hrun
    by (vm_compute; reflexivity).
  split; [exact Hrun|].
  apply (find_video_urls_elements Site.world_ Site.root_html (BASE_URL CONFIG)
           _ Hrun).
  right. exists "/video/clip.webm". split; [|vm_compute; reflexivity].
  assert (pattern_pass Site.root_html = ["/video/intro.mp4"; "/video/clip.webm"])
    as -> by (vm_compute; reflexivity).
  apply elem_of_cons. right. apply elem_of_cons. by left.
Defined.

Lemma pattern_pass_shape_witness :
  "/video/clip.webm" ∈ pattern_pass Site.root_html
  ∧ ∃ attr q stem ext pre rem,
      (attr = "src" ∨ attr = "href")
      ∧ Patterns.is_quote q = true
      ∧ stem ≠ EmptyString
      ∧ PyStr.all (λ c, negb (Patterns.is_quote c)) stem = true
      ∧ (ext = "mp4" ∨ ext = "webm")
      ∧ "/video/clip.webm" = "/video/" +:+ stem +:+ "." +:+ ext
      ∧ Site.root_html = pre +:+ attr +:+ "=" +:+ String q ("/video/clip.webm" +:+ rem).
Proof.
  assert ("/video/clip.webm" ∈ pattern_pass Site.root_html) as Hin.
  { assert (pattern_pass Site.root_html = ["/video/intro.mp4"; "/video/clip.webm"])
      as -> by (vm_compute; reflexivity).
    apply elem_of_cons. right. apply elem_of_cons. by left. }
  split; [exact Hin|]. exact (pattern_pass_shape _ _ Hin).
Defined.

Lemma absolute_href_internal_iff_same_host_witness :
  plain_host "enterawebsite.com" = true
  ∧ plain_host "other.test" = true
  ∧ BASE_URL CONFIG = site_root "enterawebsite.com"
  ∧ is_internal_link CONFIG (Some ("https://" +:+ "other.test" +:+ String "/" "a?b#c"))
    = Ok false.
Proof.
  split_and!; [reflexivity..|].
  exact (absolute_href_internal_iff_same_host CONFIG "enterawebsite.com"
           "other.test" "a?b#c" eq_refl eq_refl eq_refl).
Defined.

Lemma found_videos_provenance_witness :
  reachable CONFIG Site.world_ Site.after_root
  ∧ "https://enterawebsite.com/video/intro.mp4" ∈ found_videos Site.after_root
  ∧ ∃ url html vids,
      url ∈ visited_pages Site.after_root
      ∧ requests_get Site.world_ url = Some html
      ∧ find_video_urls Site.world_ html url = Ok vids
      ∧ "https://enterawebsite.com/video/intro.mp4" ∈ vids.
Proof.
  assert ("https://enterawebsite.com/video/intro.mp4" ∈ found_videos Site.after_root)
    as Hin by (vm_compute; reflexivity).
  split_and!; [apply site_after_root_reachable | exact Hin |].
  exact (found_videos_provenance CONFIG Site.world_ Site.after_root
           site_after_root_reachable _ Hin).
Defined.

Lemma found_videos_only_grows_witness :
  rtc (next CONFIG Site.world_) (initial CONFIG) Site.after_root
  ∧ found_videos (initial CONFIG) ⊆ found_videos Site.after_root.
Proof.
  assert (rtc (next CONFIG Site.world_) (initial CONFIG) Site.after_root) as Hrun
    by (apply rtc_once, site_first_step).
  split; [exact Hrun|].
  exact (found_videos_only_grows CONFIG Site.world_ _ _ Hrun).
Defined.

Lemma visited_is_fetched_witness :
  reachable CONFIG Site.world_ Site.after_root
  ∧ list_to_set (fetched Site.after_root) = visited_pages Site.after_root
  ∧ length (fetched Site.after_root) = size (visited_pages Site.after_root).
Proof.
  split; [apply site_after_root_reachable|].
  exact (visited_is_fetched CONFIG Site.world_ Site.after_root
           site_after_root_reachable).
Defined.

Lemma crawl_is_link_closed_witness :
  reachable CONFIG Site.world_ok Cases.crawl_end
  ∧ to_crawl Cases.crawl_end = ∅
  ∧ gather_page_urls CONFIG Site.world_ok Site.root_html (BASE_URL CONFIG)
    = Ok {[ "https://enterawebsite.com/a"; "https://enterawebsite.com/b";
            "https://enterawebsite.com/video/clip.webm" ]}
  ∧ ({[ "https://enterawebsite.com/a"; "https://enterawebsite.com/b";
        "https://enterawebsite.com/video/clip.webm" ]} : gset string)
    ⊆ visited_pages Cases.crawl_end.
Proof.
  assert (to_crawl Cases.crawl_end = ∅) as Hempty by (vm_compute; reflexivity).
  assert (BASE_URL CONFIG ∈ visited_pages Cases.crawl_end) as Hroot
    by (vm_compute; reflexivity).
  assert (gather_page_urls CONFIG Site.world_ok Site.root_html (BASE_URL CONFIG)
          = Ok {[ "https://enterawebsite.com/a"; "https://enterawebsite.com/b";
                  "https://enterawebsite.com/video/clip.webm" ]}) as Hrun
    by (vm_compute; reflexivity).
  split; [apply site_crawl_end_reachable|]. split; [exact Hempty|].
  split; [exact Hrun|].
  exact (proj2 (crawl_is_link_closed CONFIG Site.world_ok Cases.crawl_end
                  site_crawl_end_reachable (BASE_URL CONFIG) Site.root_html _
                  Hroot eq_refl Hrun) Hempty).
Defined.

Lemma extraction_error_ends_crawl_witness :
  ∃ st', main CONFIG Cases.world_bad 1 Site.empty_disk
         = Some (st', Site.empty_disk, Raise ValueError)
         ∧ visited_pages st' = visited_pages (initial CONFIG) ∪ {[BASE_URL CONFIG]}.
Proof.
  destruct (extraction_error_ends_crawl CONFIG Cases.world_bad 0 0 (initial CONFIG)
              (BASE_URL CONFIG) Cases.bad_html ValueError)
    as (st' & _ & Hv & _ & _ & Hmain).
  - reflexivity.
  - vm_compute. reflexivity.
  - vm_compute. discriminate.
  - reflexivity.
  - right. exists ∅. split; vm_compute; reflexivity.
  - exists st'. split; [exact (Hmain eq_refl eq_refl Site.empty_disk) | exact Hv].
Defined.

Lemma main_returns_all_stored_witness :
  main CONFIG Site.world_ok 10 Site.empty_disk
  = Some (Cases.crawl_end, Site.full_disk, Ok tt)
  ∧ "https://enterawebsite.com/video/zoo.mp4" ∈ found_videos Cases.crawl_end
  ∧ is_Some (fs Site.full_disk !! "videos/zoo.mp4")
  ∧ main CONFIG Cases.world_slash 3 Site.empty_disk
    = Some (mkCrawl {[BASE_URL CONFIG]} ∅ {["https://enterawebsite.com/video/"]}
              [BASE_URL CONFIG],
            mkDState ∅ [] ["https://enterawebsite.com/video/"], Ok tt)
  ∧ already_there ∅ (VIDEO_DIR CONFIG) "https://enterawebsite.com/video/".
Proof.
  assert (main CONFIG Site.world_ok 10 Site.empty_disk
          = Some (Cases.crawl_end, Site.full_disk, Ok tt)) as Hmain
    by (vm_compute; reflexivity).
  assert ("https://enterawebsite.com/video/zoo.mp4" ∈ found_videos Cases.crawl_end)
    as Hin by (vm_compute; reflexivity).
  assert (main CONFIG Cases.world_slash 3 Site.empty_disk
          = Some (mkCrawl {[BASE_URL CONFIG]} ∅ {["https://enterawebsite.com/video/"]}
                    [BASE_URL CONFIG],
                  mkDState ∅ [] ["https://enterawebsite.com/video/"], Ok tt)) as Hslash
    by (vm_compute; reflexivity).
  split_and!; [exact Hmain | exact Hin | | exact Hslash |].
  - destruct (main_returns_all_stored CONFIG Site.world_ok 10 Site.empty_disk
                Site.full_disk Cases.crawl_end Hmain) as (_ & _ & Hall).
    destruct (Hall _ Hin) as (_ & parsed & Hp & Hfile).
    assert (parsed = UrlParse.mkParse "https" "enterawebsite.com" "/video/zoo.mp4" "" "" "")
      as -> by (vm_compute in Hp; congruence).
    exact (Hfile eq_refl).
  - destruct (main_returns_all_stored CONFIG Cases.world_slash 3 Site.empty_disk
                _ _ Hslash) as (_ & _ & Hall).
    refine (proj1 (Hall "https://enterawebsite.com/video/" _)).
    vm_compute. reflexivity.
Defined.

Lemma blank_root_page_witness :
  requests_get Cases.world_blank (BASE_URL CONFIG) = Some "<p>nothing</p>"
  ∧ pattern_pass "<p>nothing</p>" = []
  ∧ ∃ st, main CONFIG Cases.world_blank 2 Site.empty_disk
          = Some (st, Site.empty_disk, Ok tt)
          ∧ found_videos st = ∅.
Proof.
  split_and!; [reflexivity | reflexivity |].
  destruct (blank_root_page CONFIG Cases.world_blank "<p>nothing</p>"
              eq_refl eq_refl eq_refl eq_refl 0 Site.empty_disk)
    as (st & Hmain & Hfound & _).
  exists st. split; [exact Hmain | exact Hfound].
Defined.

Lemma new_files_are_in_folder_witness :
  download_all Site.world_ok Site.videos "videos" Site.empty_disk
  = (Site.full_disk, Ok tt)
  ∧ fs Site.empty_disk !! "videos/zoo.mp4" = None
  ∧ is_Some (fs Site.full_disk !! "videos/zoo.mp4")
  ∧ ∃ url parsed,
      url ∈ Site.videos
      ∧ UrlParse.urlparse url EmptyString = Ok parsed
      ∧ "videos/zoo.mp4" = path_join "videos" (basename (UrlParse.path parsed))
      ∧ PyStr.contains "/" (basename (UrlParse.path parsed)) = false
      ∧ UrlParse.mem (basename (UrlParse.path parsed)) [""; "."; ".."] = false.
Proof.
  assert (download_all Site.world_ok Site.videos "videos" Site.empty_disk
          = (Site.full_disk, Ok tt)) as Hrun by (vm_compute; reflexivity).
  assert (is_Some (fs Site.full_disk !! "videos/zoo.mp4")) as Hs
    by (exists "zoo"; vm_compute; reflexivity).
  split_and!; [exact Hrun | reflexivity | exact Hs |].
  exact (new_files_are_in_folder Site.world_ok Site.videos "videos"
           Site.empty_disk Site.full_disk (Ok tt) "videos/zoo.mp4" Hrun eq_refl Hs).
Defined.

Lemma same_basename_is_skipped_witness :
  ∃ d1, download_file Site.world_ok "https://enterawebsite.com/video/zoo.mp4"
          "videos" Site.empty_disk = (d1, Ok tt)
        ∧ download_file Site.world_ok "https://other.test/archive/zoo.mp4"
            "videos" d1
          = (mkDState (fs d1) (transfers d1)
               (processed d1 ++ ["https://other.test/archive/zoo.mp4"]), Ok tt).
Proof.
  destruct (download_file Site.world_ok "https://enterawebsite.com/video/zoo.mp4"
              "videos" Site.empty_disk) as [d1 [[]|e]] eqn:Hd;
    [|vm_compute in Hd; discriminate Hd].
  exists d1. split; [reflexivity|].
  exact (same_basename_is_skipped Site.world_ok Site.world_ok "videos"
           "https://enterawebsite.com/video/zoo.mp4"
           "https://other.test/archive/zoo.mp4"
           (UrlParse.mkParse "https" "enterawebsite.com" "/video/zoo.mp4" "" "" "")
           (UrlParse.mkParse "https" "other.test" "/archive/zoo.mp4" "" "" "")
           Site.empty_disk d1 Hd eq_refl eq_refl eq_refl).
Defined.

Lemma broken_stream_leaves_partial_file_witness :
  ∃ d1, download_file Cases.world_broken "https://enterawebsite.com/video/zoo.mp4"
          "videos" Site.empty_disk = (d1, Raise RequestException)
        ∧ fs d1 !! "videos/zoo.mp4" = Some "RIFF"
        ∧ download_file Site.world_ok "https://enterawebsite.com/video/zoo.mp4"
            "videos" d1
          = (mkDState (fs d1) (transfers d1)
               (processed d1 ++ ["https://enterawebsite.com/video/zoo.mp4"]), Ok tt).
Proof.
  destruct (broken_stream_leaves_partial_file Cases.world_broken Site.world_ok
              "https://enterawebsite.com/video/zoo.mp4" "videos" Site.empty_disk
              (UrlParse.mkParse "https" "enterawebsite.com" "/video/zoo.mp4" "" "" "")
              ["RI"; "FF"] eq_refl eq_refl eq_refl eq_refl)
    as (d1 & Hd & Hfile & Hagain).
  exists d1. split; [exact Hd|]. split; [exact Hfile | exact Hagain].
Defined.

Lemma each_video_at_most_once_witness :
  download_all Site.world_ok Site.videos "videos" Site.empty_disk
  = (Site.full_disk, Ok tt)
  ∧ ∃ called requested,
      processed Site.full_disk = (processed Site.empty_disk ++ called)%list
      ∧ transfers Site.full_disk = (transfers Site.empty_disk ++ requested)%list
      ∧ NoDup called ∧ NoDup requested.
Proof.
  assert (download_all Site.world_ok Site.videos "videos" Site.empty_disk
          = (Site.full_disk, Ok tt)) as Hrun by (vm_compute; reflexivity).
  split; [exact Hrun|].
  destruct (each_video_at_most_once Site.world_ok Site.videos "videos"
              Site.empty_disk Site.full_disk (Ok tt) Hrun)
    as (called & requested & Hp & Ht & Hc & Hr & _).
  exists called, requested.
  split; [exact Hp|]. split; [exact Ht|]. split; [exact Hc | exact Hr].
Defined.

Lemma no_pages_without_ceiling_witness :
  (MAX_PAGES (mkConfig "https://enterawebsite.com/" "videos" 0) ≤ 0)%Z
  ∧ main (mkConfig "https://enterawebsite.com/" "videos" 0) Site.world_ok 1
      Site.empty_disk
    = Some (initial (mkConfig "https://enterawebsite.com/" "videos" 0),
            Site.empty_disk, Ok tt).
Proof.
  split; [simpl; lia|].
  apply (no_pages_without_ceiling (mkConfig "https://enterawebsite.com/" "videos" 0)
           Site.world_ok 0 Site.empty_disk).
  simpl. lia.
Defined.
